(** * The Sui NFT marketplace contract [contract::nft_marketplace]

    A shallow embedding of the Move module (mint, list, delist, buy and
    owner update over a shared registry) together with the properties of
    its custody and accounting state machine.

    Layout:
    - [Framework]: the pieces of the Move standard library and of the Sui
      framework the module calls (checked [u64] arithmetic, [std::string],
      [std::ascii], [sui::url], [sui::table], events, transfers);
    - the structs, events and entry functions of the module, written in a
      state-and-abort monad [Tx];
    - the registry-level and the object-store-level transition systems;
    - the theorems. *)

From Stdlib Require Import ZArith NArith List Lia.
From Stdlib.Strings Require Import Byte.
From stdpp Require Import base option list gmap fin_maps.

Open Scope Z_scope.

(** ** Machine integers, addresses, object identifiers *)

(** Move's [u64]: an integer in [0, 2^64). Arithmetic on it never wraps:
    the VM aborts the transaction on overflow and underflow. *)
Abbreviation u64 := Z.
Definition MAX_U64 : Z := 18446744073709551615.

(** Account addresses and object identifiers are 32-byte values; only
    their equality matters here. *)
Abbreviation address := N.
Abbreviation ID := N.

(** ** Aborts *)

(** The error constants of the module. *)
Definition ENotOwner : u64 := 1.
Definition EInsufficientPayment : u64 := 2.
Definition ENotListed : u64 := 3.
Definition EInvalidPrice : u64 := 4.

(** Why a transaction aborted: an [assert!] of the module with one of the
    constants above, or an abort raised below the module. *)
Inductive abort_reason : Type :=
  | ContractAbort (code : u64)     (* assert!(_, code) in contract::nft_marketplace *)
  | EInvalidUTF8                   (* std::string::utf8 *)
  | EInvalidASCIICharacter         (* std::ascii::string *)
  | EFieldAlreadyExists            (* sui::table::add on a present key *)
  | EFieldDoesNotExist             (* sui::table::remove on an absent key *)
  | ArithmeticError.               (* u64 overflow or underflow *)

Inductive result (A : Type) : Type :=
  | Ok (a : A)
  | Abort (e : abort_reason).
Arguments Ok {A} a.
Arguments Abort {A} e.

#[global] Instance result_ret : MRet result := fun A a => Ok a.
#[global] Instance result_bind : MBind result := fun A B f m =>
  match m with
  | Ok a => f a
  | Abort e => Abort e
  end.

Module Framework.

(** *** Checked arithmetic *)

Definition checked_add (a b : u64) : result u64 :=
  if a + b <=? MAX_U64 then Ok (a + b) else Abort ArithmeticError.

Definition checked_sub (a b : u64) : result u64 :=
  if b <=? a then Ok (a - b) else Abort ArithmeticError.

(** *** [std::string] and [std::ascii] *)

(** [std::string::String { bytes }]: bytes known to be valid UTF-8. *)
Record String : Type := { bytes : list byte }.

(** [std::ascii::String { bytes }]: bytes known to be ASCII. *)
Record AsciiString : Type := { ascii_bytes : list byte }.

Definition in_range (lo hi : N) (b : byte) : bool :=
  ((lo <=? Byte.to_N b) && (Byte.to_N b <=? hi))%N.

Definition continuation (b : byte) : bool := in_range 0x80 0xBF b.

(** The native [internal_check_utf8]: well-formed UTF-8 (no overlong
    forms, no surrogates, nothing above U+10FFFF). *)
Fixpoint internal_check_utf8 (v : list byte) : bool :=
  match v with
  | [] => true
  | b0 :: v1 =>
    if in_range 0x00 0x7F b0 then internal_check_utf8 v1
    else if in_range 0xC2 0xDF b0 then
      match v1 with
      | b1 :: v2 => continuation b1 && internal_check_utf8 v2
      | _ => false
      end
    else if in_range 0xE0 0xEF b0 then
      match v1 with
      | b1 :: b2 :: v3 =>
        (if in_range 0xE0 0xE0 b0 then in_range 0xA0 0xBF b1
         else if in_range 0xED 0xED b0 then in_range 0x80 0x9F b1
         else continuation b1)
        && continuation b2 && internal_check_utf8 v3
      | _ => false
      end
    else if in_range 0xF0 0xF4 b0 then
      match v1 with
      | b1 :: b2 :: b3 :: v4 =>
        (if in_range 0xF0 0xF0 b0 then in_range 0x90 0xBF b1
         else if in_range 0xF4 0xF4 b0 then in_range 0x80 0x8F b1
         else continuation b1)
        && continuation b2 && continuation b3 && internal_check_utf8 v4
      | _ => false
      end
    else false
  end.

(** [std::string::utf8]: aborts unless the bytes are valid UTF-8. *)
Definition utf8 (v : list byte) : result String :=
  if internal_check_utf8 v then Ok {| bytes := v |} else Abort EInvalidUTF8.

(** [std::ascii::is_valid_char]. *)
Definition is_valid_char (b : byte) : bool := (Byte.to_N b <=? 0x7F)%N.

(** [std::ascii::string]: aborts unless every byte is an ASCII character. *)
Definition ascii_string (v : list byte) : result AsciiString :=
  if forallb is_valid_char v then Ok {| ascii_bytes := v |}
  else Abort EInvalidASCIICharacter.

(** [std::ascii::String::to_string]: ASCII bytes are valid UTF-8 as they are. *)
Definition to_string (s : AsciiString) : String := {| bytes := ascii_bytes s |}.

(** *** [sui::url] *)

(** [sui::url::Url { url : std::ascii::String }]; its accessor is [inner_url]. *)
Record Url : Type := { inner_url : AsciiString }.

(** [sui::url::new_unsafe_from_bytes]: no check of the URL syntax, but the
    bytes go through [std::ascii::string], which aborts on a non-ASCII byte. *)
Definition new_unsafe_from_bytes (v : list byte) : result Url :=
  s ← ascii_string v; Ok {| inner_url := s |}.

(** *** [sui::table] *)

Section Table.
Context {V : Type}.

Definition table_length (t : gmap ID V) : u64 := Z.of_nat (size t).

Definition table_contains (t : gmap ID V) (k : ID) : bool :=
  match t !! k with
  | Some _ => true
  | None => false
  end.

(** [table::add]: aborts if the key is present; the table keeps its size
    in a [u64] field. *)
Definition table_add (t : gmap ID V) (k : ID) (v : V) : result (gmap ID V) :=
  match t !! k with
  | Some _ => Abort EFieldAlreadyExists
  | None =>
    _ ← checked_add (table_length t) 1;
    Ok (<[k := v]> t)
  end.

(** [table::remove]: aborts if the key is absent, else returns the value. *)
Definition table_remove (t : gmap ID V) (k : ID) : result (V * gmap ID V) :=
  match t !! k with
  | Some v => Ok (v, delete k t)
  | None => Abort EFieldDoesNotExist
  end.
End Table.

(** *** [sui::coin] *)

(** [Coin<SUI> { id, balance }]. *)
Record Coin : Type := { coin_id : ID; balance : u64 }.

Definition coin_value (c : Coin) : u64 := balance c.

End Framework.
Export Framework.

(** ** Structs of the module *)

(** [NFT]: the field [uid] is the object's [id : UID]; [owner] is the
    owner recorded inside the object, distinct from the address that holds
    the object in the Sui object store. *)
Record NFT : Type := {
  uid : ID;
  name : String;
  description : String;
  url : Url;
  creator : address;
  owner : address;
}.

Definition object_id (nft : NFT) : ID := uid nft.

Definition set_owner (a : address) (nft : NFT) : NFT :=
  {| uid := uid nft; name := name nft; description := description nft;
     url := url nft; creator := creator nft; owner := a |}.

Record Listing : Type := {
  nft_id : ID;
  seller : address;
  price : u64;
  listed : bool;
}.

(** [NftMarketplaceRegistry]: the shared object with the counters and the
    table of active listings. *)
Record NftMarketplaceRegistry : Type := {
  total_nfts_minted : u64;
  total_nfts_listed : u64;
  total_sales : u64;
  total_volume : u64;
  listings : gmap ID Listing;
}.

Definition set_total_nfts_minted (v : u64) (r : NftMarketplaceRegistry) :=
  {| total_nfts_minted := v; total_nfts_listed := total_nfts_listed r;
     total_sales := total_sales r; total_volume := total_volume r;
     listings := listings r |}.

Definition set_total_nfts_listed (v : u64) (r : NftMarketplaceRegistry) :=
  {| total_nfts_minted := total_nfts_minted r; total_nfts_listed := v;
     total_sales := total_sales r; total_volume := total_volume r;
     listings := listings r |}.

Definition set_total_sales (v : u64) (r : NftMarketplaceRegistry) :=
  {| total_nfts_minted := total_nfts_minted r;
     total_nfts_listed := total_nfts_listed r;
     total_sales := v; total_volume := total_volume r;
     listings := listings r |}.

Definition set_total_volume (v : u64) (r : NftMarketplaceRegistry) :=
  {| total_nfts_minted := total_nfts_minted r;
     total_nfts_listed := total_nfts_listed r;
     total_sales := total_sales r; total_volume := v;
     listings := listings r |}.

Definition set_listings (t : gmap ID Listing) (r : NftMarketplaceRegistry) :=
  {| total_nfts_minted := total_nfts_minted r;
     total_nfts_listed := total_nfts_listed r;
     total_sales := total_sales r; total_volume := total_volume r;
     listings := t |}.

(** The registry that [init] shares (and [init_for_testing] too). [init]
    also claims the publisher and sets up the display of the NFT type;
    no entry function reads either. *)
Definition init_registry : NftMarketplaceRegistry :=
  {| total_nfts_minted := 0; total_nfts_listed := 0; total_sales := 0;
     total_volume := 0; listings := ∅ |}.

(** ** Events *)

Inductive Event : Type :=
  | NFTMinted (nft_id : ID) (creator owner : address) (name url : String)
  | NFTListed (nft_id : ID) (seller : address) (price : u64)
  | NFTDelisted (nft_id : ID) (seller : address)
  | NFTSold (nft_id : ID) (seller buyer : address) (price : u64)
  | OwnerUpdated (nft_id : ID) (old_owner new_owner : address).

(** ** Transactions *)

(** Objects that the module hands to [transfer::public_transfer]. *)
Inductive Object : Type :=
  | ONft (nft : NFT)
  | OCoin (c : Coin).

(** [TxContext]: the signer and the number of objects created so far, from
    which [object::new] derives fresh identifiers. *)
Record TxContext : Type := { sender : address; ids_created : N }.

(** What one transaction reads and writes: the shared registry (the
    [&mut] argument), the context, the events emitted and the transfers
    made, both in program order. *)
Record TxState : Type := {
  registry : NftMarketplaceRegistry;
  ctx : TxContext;
  events : list Event;
  transfers : list (Object * address);
}.

(** A Move computation either returns a value and a new state, or aborts;
    nothing of the state survives an abort. *)
Definition Tx (A : Type) : Type := TxState -> result (A * TxState).

#[global] Instance Tx_ret : MRet Tx := fun A a s => Ok (a, s).
#[global] Instance Tx_bind : MBind Tx := fun A B f m s =>
  match m s with
  | Ok (a, s') => f a s'
  | Abort e => Abort e
  end.

Definition abort {A : Type} (e : abort_reason) : Tx A := fun _ => Abort e.

(** [assert!(cond, code)]. *)
Definition assert (cond : bool) (code : u64) : Tx unit :=
  if cond then mret tt else abort (ContractAbort code).

Definition lift {A : Type} (m : result A) : Tx A := fun s =>
  match m with
  | Ok a => Ok (a, s)
  | Abort e => Abort e
  end.

Definition get_registry : Tx NftMarketplaceRegistry := fun s => Ok (registry s, s).

Definition put_registry (r : NftMarketplaceRegistry) : Tx unit := fun s =>
  Ok (tt, {| registry := r; ctx := ctx s; events := events s;
             transfers := transfers s |}).

(** [ctx.sender()]. *)
Definition ctx_sender : Tx address := fun s => Ok (sender (ctx s), s).

(** [object::new(ctx)]: a fresh identifier; the context counts it. Sui
    derives the identifier from the transaction digest and this count;
    only its freshness matters, so the count itself stands for it, and a
    transaction starts counting where the previous one stopped. *)
Definition object_new : Tx ID := fun s =>
  Ok (ids_created (ctx s),
      {| registry := registry s;
         ctx := {| sender := sender (ctx s);
                   ids_created := N.succ (ids_created (ctx s)) |};
         events := events s; transfers := transfers s |}).

(** [event::emit]. *)
Definition emit (e : Event) : Tx unit := fun s =>
  Ok (tt, {| registry := registry s; ctx := ctx s;
             events := events s ++ [e]; transfers := transfers s |}).

(** [transfer::public_transfer(obj, recipient)]. *)
Definition public_transfer (o : Object) (recipient : address) : Tx unit := fun s =>
  Ok (tt, {| registry := registry s; ctx := ctx s; events := events s;
             transfers := transfers s ++ [(o, recipient)] |}).

(** [table::add(&mut registry.listings, k, v)]. *)
Definition listings_add (k : ID) (v : Listing) : Tx unit :=
  r ← get_registry;
  t ← lift (table_add (listings r) k v);
  put_registry (set_listings t r).

(** [table::remove(&mut registry.listings, k)]. *)
Definition listings_remove (k : ID) : Tx Listing :=
  r ← get_registry;
  '(v, t) ← lift (table_remove (listings r) k);
  put_registry (set_listings t r);;
  mret v.

(** ** Entry functions *)

Section Contract.

(** The named address [@nft_marketplace] that holds listed NFTs. *)
Variable nft_marketplace : address.

(** Mint a new NFT to the sender. The byte-vector arguments [name],
    [description] and [url] carry a [_bytes] suffix here, the record
    fields keeping the plain names. *)
Definition mint_nft (name_bytes description_bytes url_bytes : list byte) : Tx unit :=
  sender ← ctx_sender;
  nft_name ← lift (utf8 name_bytes);
  nft_url ← lift (new_unsafe_from_bytes url_bytes);
  id ← object_new;
  nft_description ← lift (utf8 description_bytes);
  let nft := {| uid := id; name := nft_name; description := nft_description;
                url := nft_url; creator := sender; owner := sender |} in
  let nft_id := object_id nft in
  r ← get_registry;
  minted ← lift (checked_add (total_nfts_minted r) 1);
  put_registry (set_total_nfts_minted minted r);;
  emit (NFTMinted nft_id sender sender (name nft)
          (to_string (inner_url nft_url)));;
  public_transfer (ONft nft) sender.

(** List an NFT for sale. *)
Definition list_nft (nft : NFT) (price : u64) : Tx unit :=
  sender ← ctx_sender;
  assert (0 <? price) EInvalidPrice;;
  assert (bool_decide (owner nft = sender)) ENotOwner;;
  let nft_id := object_id nft in
  let listing := {| nft_id := nft_id; seller := sender; price := price;
                    listed := true |} in
  listings_add nft_id listing;;
  r ← get_registry;
  n ← lift (checked_add (total_nfts_listed r) 1);
  put_registry (set_total_nfts_listed n r);;
  emit (NFTListed nft_id sender price);;
  public_transfer (ONft nft) nft_marketplace.

(** Delist an NFT from sale. *)
Definition delist_nft (nft : NFT) : Tx unit :=
  sender ← ctx_sender;
  let nft_id := object_id nft in
  r ← get_registry;
  assert (table_contains (listings r) nft_id) ENotListed;;
  listing ← listings_remove nft_id;
  assert (bool_decide (seller listing = sender)) ENotOwner;;
  r ← get_registry;
  n ← lift (checked_sub (total_nfts_listed r) 1);
  put_registry (set_total_nfts_listed n r);;
  emit (NFTDelisted nft_id sender);;
  public_transfer (ONft nft) sender.

(** Buy a listed NFT. *)
Definition buy_nft (nft : NFT) (payment : Coin) : Tx unit :=
  buyer ← ctx_sender;
  let nft_id := object_id nft in
  r ← get_registry;
  assert (table_contains (listings r) nft_id) ENotListed;;
  listing ← listings_remove nft_id;
  let seller := seller listing in
  let price := price listing in
  assert (price <=? coin_value payment) EInsufficientPayment;;
  let old_owner := owner nft in
  let owned_nft := set_owner buyer nft in
  r ← get_registry;
  sales ← lift (checked_add (total_sales r) 1);
  put_registry (set_total_sales sales r);;
  r ← get_registry;
  volume ← lift (checked_add (total_volume r) price);
  put_registry (set_total_volume volume r);;
  r ← get_registry;
  n ← lift (checked_sub (total_nfts_listed r) 1);
  put_registry (set_total_nfts_listed n r);;
  emit (NFTSold nft_id seller buyer price);;
  emit (OwnerUpdated nft_id old_owner buyer);;
  public_transfer (OCoin payment) seller;;
  public_transfer (ONft owned_nft) buyer.

(** Update NFT owner (transfer). The registry is not an argument. *)
Definition update_owner (nft : NFT) (new_owner : address) : Tx unit :=
  sender ← ctx_sender;
  assert (bool_decide (owner nft = sender)) ENotOwner;;
  let nft_id := object_id nft in
  let old_owner := owner nft in
  let owned_nft := set_owner new_owner nft in
  emit (OwnerUpdated nft_id old_owner new_owner);;
  public_transfer (ONft owned_nft) new_owner.

End Contract.

(** ** The registry-level transition system *)

(** One command of a transaction, with the NFT passed by value: a call of
    an entry function, or the framework's [transfer::public_transfer] of
    an NFT. The latter is not the module's, but [NFT] is declared with
    [store], so whoever holds an NFT can send it on without the module
    seeing it: the record, owner field included, moves as it is. *)
Inductive Op : Type :=
  | OpMint (name_bytes description_bytes url_bytes : list byte)
  | OpList (nft : NFT) (price : u64)
  | OpDelist (nft : NFT)
  | OpBuy (nft : NFT) (payment : Coin)
  | OpUpdateOwner (nft : NFT) (new_owner : address)
  | OpTransfer (nft : NFT) (recipient : address).

Definition run_op (nft_marketplace : address) (o : Op) : Tx unit :=
  match o with
  | OpMint n d u => mint_nft n d u
  | OpList nft p => list_nft nft_marketplace nft p
  | OpDelist nft => delist_nft nft
  | OpBuy nft c => buy_nft nft c
  | OpUpdateOwner nft a => update_owner nft a
  | OpTransfer nft a => public_transfer (ONft nft) a
  end.

(** The state a transaction starts from. *)
Definition start (r : NftMarketplaceRegistry) (c : TxContext) : TxState :=
  {| registry := r; ctx := c; events := []; transfers := [] |}.

(** The registry after a transaction: the one the entry function leaves
    when it returns, the one it found when it aborts. *)
Definition registry_after (nft_marketplace : address) (c : TxContext) (o : Op)
    (r : NftMarketplaceRegistry) : NftMarketplaceRegistry :=
  match run_op nft_marketplace o (start r c) with
  | Ok (_, s) => registry s
  | Abort _ => r
  end.

(** Registries reachable from [init_registry] by any sequence of calls,
    whatever NFT value, signer and arguments each call is given. *)
Inductive reachable_registry (nft_marketplace : address) : NftMarketplaceRegistry -> Prop :=
  | reachable_init : reachable_registry nft_marketplace init_registry
  | reachable_step r c o :
      reachable_registry nft_marketplace r ->
      reachable_registry nft_marketplace (registry_after nft_marketplace c o r).

(** Is the call a [list_nft] of the NFT [id]? *)
Definition lists_id (id : ID) (o : Op) : bool :=
  match o with
  | OpList nft _ => bool_decide (object_id nft = id)
  | _ => false
  end.

(** The registry after a sequence of calls, each with its own context. *)
Definition registry_after_all (nft_marketplace : address)
    (calls : list (TxContext * Op)) (r : NftMarketplaceRegistry) : NftMarketplaceRegistry :=
  foldl (fun r co => registry_after nft_marketplace co.1 co.2 r) r calls.

(** ** The object store and the runtime around the module *)

(** The NFTs with the address that holds each, the registry, the log of
    events, the coins paid out, and the next fresh identifier. *)
Record World : Type := {
  w_registry : NftMarketplaceRegistry;
  nfts : gmap ID (NFT * address);
  event_log : list Event;
  payments : list (Coin * address);
  next_id : N;
}.

Definition init_world : World :=
  {| w_registry := init_registry; nfts := ∅; event_log := []; payments := [];
     next_id := 0%N |}.

(** A command as a signer submits it: the NFT is named by its identifier.
    [CallTransfer] is the plain transfer of an NFT to another address. *)
Inductive Call : Type :=
  | CallMint (name_bytes description_bytes url_bytes : list byte)
  | CallList (nft : ID) (price : u64)
  | CallDelist (nft : ID)
  | CallBuy (nft : ID) (payment : Coin)
  | CallUpdateOwner (nft : ID) (new_owner : address)
  | CallTransfer (nft : ID) (recipient : address).

Record Transaction : Type := { signer : address; call : Call }.

Inductive outcome : Type :=
  | Committed (w : World)
  | Aborted (e : abort_reason)
  | Rejected.                       (* an input object is missing or not usable *)

(** Sui's rule for an object passed by value: the signer holds it. *)
Definition sui_owned (signer holder : address) : bool := bool_decide (signer = holder).

Definition used_object (c : Call) : option ID :=
  match c with
  | CallMint _ _ _ => None
  | CallList id _ | CallDelist id | CallBuy id _ | CallUpdateOwner id _
  | CallTransfer id _ => Some id
  end.

(** Is the command a [buy_nft] or an [update_owner] on the NFT [id]? These
    are the two entry functions that write [nft.owner]. *)
Definition rewrites_owner (id : ID) (c : Call) : bool :=
  match c with
  | CallBuy id' _ | CallUpdateOwner id' _ => bool_decide (id' = id)
  | _ => false
  end.

Definition apply_transfer (store : gmap ID (NFT * address)) (tr : Object * address)
    : gmap ID (NFT * address) :=
  match tr.1 with
  | ONft nft => <[object_id nft := (nft, tr.2)]> store
  | OCoin _ => store
  end.

Definition coin_transfer (tr : Object * address) : option (Coin * address) :=
  match tr.1 with
  | OCoin c => Some (c, tr.2)
  | ONft _ => None
  end.

Section Runtime.

Variable nft_marketplace : address.

(** [admits signer holder]: may [signer] pass by value an object held by
    [holder]? The check is the runtime's, not the module's; [sui_owned]
    is Sui's. The results below that quantify over worlds hold for any
    such rule. *)
Variable admits : address -> address -> bool.

Definition take_nft (w : World) (who : address) (id : ID) : option NFT :=
  match nfts w !! id with
  | Some (nft, holder) => if admits who holder then Some nft else None
  | None => None
  end.

Definition resolve (w : World) (t : Transaction) : option Op :=
  match call t with
  | CallMint n d u => Some (OpMint n d u)
  | CallList id p => nft ← take_nft w (signer t) id; Some (OpList nft p)
  | CallDelist id => nft ← take_nft w (signer t) id; Some (OpDelist nft)
  | CallBuy id c => nft ← take_nft w (signer t) id; Some (OpBuy nft c)
  | CallUpdateOwner id a => nft ← take_nft w (signer t) id; Some (OpUpdateOwner nft a)
  | CallTransfer id a => nft ← take_nft w (signer t) id; Some (OpTransfer nft a)
  end.

(** The world after a transaction that returned in state [s]. *)
Definition commit (w : World) (used : option ID) (s : TxState) : World :=
  {| w_registry := registry s;
     nfts := foldl apply_transfer
               (match used with Some id => delete id (nfts w) | None => nfts w end)
               (transfers s);
     event_log := event_log w ++ events s;
     payments := payments w ++ omap coin_transfer (transfers s);
     next_id := ids_created (ctx s) |}.

Definition run_tx (w : World) (t : Transaction) : outcome :=
  match resolve w t with
  | None => Rejected
  | Some o =>
    match run_op nft_marketplace o
            (start (w_registry w) {| sender := signer t; ids_created := next_id w |}) with
    | Ok (_, s) => Committed (commit w (used_object (call t)) s)
    | Abort e => Aborted e
    end
  end.

(** Only a committed transaction changes the world. *)
Definition execute (w : World) (t : Transaction) : World :=
  match run_tx w t with
  | Committed w' => w'
  | _ => w
  end.

Definition run_trace (w : World) (ts : list Transaction) : World :=
  foldl execute w ts.

(** The worlds that transactions lead to from the initial one: calls of
    the five entry functions and plain transfers of NFTs, in any order and
    by any signers. *)
Definition reachable (w : World) : Prop := exists ts, w = run_trace init_world ts.

End Runtime.

(** ** Invariants *)

(** The counter agrees with the table. *)
Definition counter_matches (r : NftMarketplaceRegistry) : Prop :=
  total_nfts_listed r = table_length (listings r).

(** Every NFT is stored under its own identifier, below the next fresh one. *)
Definition store_ok (w : World) : Prop :=
  forall id n h, nfts w !! id = Some (n, h) ->
    object_id n = id /\ (id < next_id w)%N.

(** An admission rule at least as strict as Sui's. *)
Definition holder_only (admits : address -> address -> bool) : Prop :=
  forall who holder, admits who holder = true -> who = holder.

(** Every listing sits under the identifier it names, is flagged as
    listed and has a positive price. *)
Definition listing_ok (r : NftMarketplaceRegistry) : Prop :=
  forall id l, listings r !! id = Some l ->
    nft_id l = id /\ listed l = true /\ 0 < price l.

(** The four counters are values of type [u64]. *)
Definition counters_in_range (r : NftMarketplaceRegistry) : Prop :=
  (0 <= total_nfts_minted r <= MAX_U64) /\
  (0 <= total_nfts_listed r <= MAX_U64) /\
  (0 <= total_sales r <= MAX_U64) /\
  (0 <= total_volume r <= MAX_U64).

(** Two records of the same asset: everything but the owner field agrees. *)
Definition same_asset (n n' : NFT) : Prop :=
  uid n' = uid n /\ name n' = name n /\ description n' = description n /\
  url n' = url n /\ creator n' = creator n.

(** ** Reading the event log *)

(** What an indexer that only sees the events can rebuild. *)

Definition is_minted (e : Event) : bool :=
  match e with
  | NFTMinted _ _ _ _ _ => true
  | _ => false
  end.

Definition minted_count (log : list Event) : nat :=
  length (List.filter is_minted log).

(** Seller and price of each sale, in log order. *)
Definition sale_of (e : Event) : option (address * u64) :=
  match e with
  | NFTSold _ seller _ price => Some (seller, price)
  | _ => None
  end.

Definition sales_in (log : list Event) : list (address * u64) := omap sale_of log.

Definition volume_of (sales : list (address * u64)) : Z :=
  foldr (fun sp acc => sp.2 + acc) 0 sales.

Definition paid_total (ps : list (Coin * address)) : Z :=
  foldr (fun pa acc => coin_value pa.1 + acc) 0 ps.

(** A payment answers a sale: it went to the seller and covers the price. *)
Definition settles (pa : Coin * address) (sp : address * u64) : Prop :=
  pa.2 = sp.1 /\ sp.2 <= coin_value pa.1.

(** The table of listings as the events tell it. *)
Definition replay_listing (t : gmap ID Listing) (e : Event) : gmap ID Listing :=
  match e with
  | NFTListed id seller price =>
      <[id := {| nft_id := id; seller := seller; price := price; listed := true |}]> t
  | NFTDelisted id _ => delete id t
  | NFTSold id _ _ _ => delete id t
  | _ => t
  end.

Definition replay_listings (log : list Event) : gmap ID Listing :=
  foldl replay_listing ∅ log.

(** The owner field of each NFT as the events tell it. *)
Definition replay_owner (o : gmap ID address) (e : Event) : gmap ID address :=
  match e with
  | NFTMinted id _ owner _ _ => <[id := owner]> o
  | OwnerUpdated id _ new_owner => <[id := new_owner]> o
  | _ => o
  end.

Definition replay_owners (log : list Event) : gmap ID address :=
  foldl replay_owner ∅ log.

(** The owner events chain up: an [NFTMinted] event is about an NFT the
    log has not named before, and an [OwnerUpdated] event names as old
    owner the owner the log named last. [o] is the owner map replayed so
    far. *)
Fixpoint owner_chain (o : gmap ID address) (log : list Event) : Prop :=
  match log with
  | [] => True
  | e :: rest =>
    match e with
    | NFTMinted id _ _ _ _ => o !! id = None
    | OwnerUpdated id old_owner _ => o !! id = Some old_owner
    | _ => True
    end /\ owner_chain (replay_owner o e) rest
  end.

(** ** The backend's configuration *)

(** [SuiConfig] of the API server: the two fields that the constructor
    reads from the environment and [isConfigured] tests. The client, the
    RPC URL and the admin key pair play no part in that test. *)
Module SuiConfig.
Import Stdlib.Strings.String.

(** The environment: [None] is an unset variable. *)
Record Env : Type := {
  NFT_PACKAGE_ID : option String.string;
  NFT_MODULE_NAME : option String.string;
}.

(** JavaScript's [v || d] for a string or [undefined] on the left: the
    empty string and [undefined] are falsy. *)
Definition or_else (v : option String.string) (d : String.string) : String.string :=
  match v with
  | Some s => if String.eqb s String.EmptyString then d else s
  | None => d
  end.

(** [!!s] for a string. *)
Definition truthy (s : String.string) : bool := negb (String.eqb s String.EmptyString).

Record t : Type := { packageId : String.string; moduleName : String.string }.

Definition constructor (env : Env) : t :=
  {| packageId := or_else (NFT_PACKAGE_ID env) String.EmptyString;
     moduleName := or_else (NFT_MODULE_NAME env) "nft_marketplace"%string |}.

Definition isConfigured (c : t) : bool :=
  truthy (packageId c) && truthy (moduleName c).

End SuiConfig.

(** ** Concrete scenarios *)

(** Named parties, coins and traces that the examples below run. *)
Module Scenario.

Definition market : address := 160%N.      (* who stands behind @nft_marketplace *)
Definition alice : address := 161%N.
Definition bob : address := 176%N.
Definition carol : address := 192%N.

(** 2^63: two sales at this price exceed [MAX_U64] in [total_volume]. *)
Definition half_range : u64 := 9223372036854775808.

Definition coin (v : u64) : Coin := {| coin_id := 4096%N; balance := v |}.

Definition tx (who : address) (c : Call) : Transaction :=
  {| signer := who; call := c |}.

Definition plain_nft (id : ID) (who : address) : NFT :=
  {| uid := id; name := {| bytes := [] |}; description := {| bytes := [] |};
     url := {| inner_url := {| ascii_bytes := [] |} |};
     creator := who; owner := who |}.

(** The world of this scenario: Sui's holder rule, [market] as the
    marketplace address. *)
Definition run (ts : list Transaction) : World :=
  run_trace market sui_owned init_world ts.

Definition submit (w : World) (t : Transaction) : outcome :=
  run_tx market sui_owned w t.

(** alice sells NFT 0 to the marketplace address for 2^63, then bob lists
    NFT 1 at the same price. *)
Definition two_sellers : list Transaction :=
  [ tx alice (CallMint [] [] []);
    tx alice (CallList 0%N half_range);
    tx market (CallBuy 0%N (coin half_range));
    tx bob (CallMint [] [] []);
    tx bob (CallList 1%N half_range) ].

(** The marketplace address sells NFT 0 to itself for 2^63 and lists it
    again at that price. *)
Definition self_dealing : list Transaction :=
  [ tx market (CallMint [] [] []);
    tx market (CallList 0%N half_range);
    tx market (CallBuy 0%N (coin half_range));
    tx market (CallList 0%N half_range) ].

(** The marketplace address mints NFT 0 and lists it at 5. *)
Definition market_lists : list Transaction :=
  [ tx market (CallMint [] [] []);
    tx market (CallList 0%N 5) ].

(** alice mints NFT 0 and lists it at 100. *)
Definition alice_lists : list Transaction :=
  [ tx alice (CallMint [] [] []);
    tx alice (CallList 0%N 100) ].

(** alice lists NFT 0 at 100 and the marketplace address sends it back
    to her with a plain transfer; the listing stays. *)
Definition handed_back : list Transaction :=
  alice_lists ++ [ tx market (CallTransfer 0%N alice) ].

(** Then alice passes the NFT to carol with [update_owner], and carol
    sends it back to alice with a plain transfer: alice holds the NFT,
    its owner field names carol, the listing names alice as seller. *)
Definition owner_moved_on : list Transaction :=
  handed_back ++ [ tx alice (CallUpdateOwner 0%N carol);
                   tx carol (CallTransfer 0%N alice) ].

(** The registry after mint(A) and list(A, 100) by alice. *)
Definition listed_at_100 : NftMarketplaceRegistry :=
  {| total_nfts_minted := 1; total_nfts_listed := 1; total_sales := 0;
     total_volume := 0;
     listings := {[ 0%N := {| nft_id := 0%N; seller := alice; price := 100;
                              listed := true |} ]} |}.

Definition as_signer (who : address) : TxContext :=
  {| sender := who; ids_created := 1%N |}.

End Scenario.

(** * Properties *)

(** ** What each entry function computes *)

#[local] Arguments checked_add : simpl never.
#[local] Arguments checked_sub : simpl never.

Lemma checked_add_ok (a b : u64) : a + b <= MAX_U64 -> checked_add a b = Ok (a + b).
Proof.
  intros H. unfold checked_add.
  destruct (Z.leb_spec (a + b) MAX_U64); [reflexivity | lia].
Qed.

Lemma checked_add_overflow (a b : u64) :
  MAX_U64 < a + b -> checked_add a b = Abort ArithmeticError.
Proof.
  intros H. unfold checked_add.
  destruct (Z.leb_spec (a + b) MAX_U64); [lia | reflexivity].
Qed.

Lemma checked_sub_ok (a b : u64) : b <= a -> checked_sub a b = Ok (a - b).
Proof.
  intros H. unfold checked_sub.
  destruct (Z.leb_spec b a); [reflexivity | lia].
Qed.

Lemma checked_sub_underflow (a b : u64) :
  a < b -> checked_sub a b = Abort ArithmeticError.
Proof.
  intros H. unfold checked_sub.
  destruct (Z.leb_spec b a); [lia | reflexivity].
Qed.

(** Unfold the monadic plumbing of an entry function. *)
Ltac tx_unfold :=
  cbv [mint_nft list_nft delist_nft buy_nft update_owner
       listings_add listings_remove get_registry put_registry ctx_sender
       object_new emit public_transfer assert abort lift
       mbind mret Tx_bind Tx_ret result_bind result_ret
       utf8 new_unsafe_from_bytes ascii_string
       table_contains table_add table_remove].

(** Case on every test the goal still branches on. *)
Ltac tx_cases :=
  repeat (cbn;
          match goal with
          | |- context [checked_add ?a ?b] =>
              unfold checked_add at 1; destruct (a + b <=? MAX_U64) eqn:?
          | |- context [checked_sub ?a ?b] =>
              unfold checked_sub at 1; destruct (b <=? a) eqn:?
          | |- context [if ?c then _ else _] => destruct c eqn:?
          | |- context [match ?m !! ?k with _ => _ end] => destruct (m !! k) eqn:?
          end);
  cbn; rewrite <- ?app_assoc; try reflexivity; try congruence.

Lemma mint_nft_eq (n d u : list byte) (s : TxState) :
  mint_nft n d u s =
    if internal_check_utf8 n then
      if forallb is_valid_char u then
        if internal_check_utf8 d then
          if total_nfts_minted (registry s) + 1 <=? MAX_U64 then
            let nft := {| uid := ids_created (ctx s);
                          name := {| bytes := n |};
                          description := {| bytes := d |};
                          url := {| inner_url := {| ascii_bytes := u |} |};
                          creator := sender (ctx s);
                          owner := sender (ctx s) |} in
            Ok (tt, {| registry :=
                         set_total_nfts_minted (total_nfts_minted (registry s) + 1)
                           (registry s);
                       ctx := {| sender := sender (ctx s);
                                 ids_created := N.succ (ids_created (ctx s)) |};
                       events := events s ++
                         [NFTMinted (ids_created (ctx s)) (sender (ctx s))
                            (sender (ctx s)) {| bytes := n |} {| bytes := u |}];
                       transfers := transfers s ++ [(ONft nft, sender (ctx s))] |})
          else Abort ArithmeticError
        else Abort EInvalidUTF8
      else Abort EInvalidASCIICharacter
    else Abort EInvalidUTF8.
Proof. tx_unfold. tx_cases. Qed.

Lemma list_nft_eq (market : address) (nft : NFT) (p : u64) (s : TxState) :
  list_nft market nft p s =
    if 0 <? p then
      if bool_decide (owner nft = sender (ctx s)) then
        match listings (registry s) !! object_id nft with
        | Some _ => Abort EFieldAlreadyExists
        | None =>
          if table_length (listings (registry s)) + 1 <=? MAX_U64 then
            if total_nfts_listed (registry s) + 1 <=? MAX_U64 then
              Ok (tt, {| registry :=
                           {| total_nfts_minted := total_nfts_minted (registry s);
                              total_nfts_listed := total_nfts_listed (registry s) + 1;
                              total_sales := total_sales (registry s);
                              total_volume := total_volume (registry s);
                              listings :=
                                <[object_id nft :=
                                    {| nft_id := object_id nft;
                                       seller := sender (ctx s);
                                       price := p; listed := true |}]>
                                  (listings (registry s)) |};
                         ctx := ctx s;
                         events := events s ++
                           [NFTListed (object_id nft) (sender (ctx s)) p];
                         transfers := transfers s ++ [(ONft nft, market)] |})
            else Abort ArithmeticError
          else Abort ArithmeticError
        end
      else Abort (ContractAbort ENotOwner)
    else Abort (ContractAbort EInvalidPrice).
Proof. tx_unfold. tx_cases. Qed.

Lemma delist_nft_eq (nft : NFT) (s : TxState) :
  delist_nft nft s =
    match listings (registry s) !! object_id nft with
    | None => Abort (ContractAbort ENotListed)
    | Some l =>
      if bool_decide (seller l = sender (ctx s)) then
        if 1 <=? total_nfts_listed (registry s) then
          Ok (tt, {| registry :=
                       {| total_nfts_minted := total_nfts_minted (registry s);
                          total_nfts_listed := total_nfts_listed (registry s) - 1;
                          total_sales := total_sales (registry s);
                          total_volume := total_volume (registry s);
                          listings := delete (object_id nft) (listings (registry s)) |};
                     ctx := ctx s;
                     events := events s ++ [NFTDelisted (object_id nft) (sender (ctx s))];
                     transfers := transfers s ++ [(ONft nft, sender (ctx s))] |})
        else Abort ArithmeticError
      else Abort (ContractAbort ENotOwner)
    end.
Proof. tx_unfold. tx_cases. Qed.

Lemma buy_nft_eq (nft : NFT) (payment : Coin) (s : TxState) :
  buy_nft nft payment s =
    match listings (registry s) !! object_id nft with
    | None => Abort (ContractAbort ENotListed)
    | Some l =>
      if price l <=? coin_value payment then
        if total_sales (registry s) + 1 <=? MAX_U64 then
          if total_volume (registry s) + price l <=? MAX_U64 then
            if 1 <=? total_nfts_listed (registry s) then
              Ok (tt, {| registry :=
                           {| total_nfts_minted := total_nfts_minted (registry s);
                              total_nfts_listed := total_nfts_listed (registry s) - 1;
                              total_sales := total_sales (registry s) + 1;
                              total_volume := total_volume (registry s) + price l;
                              listings :=
                                delete (object_id nft) (listings (registry s)) |};
                         ctx := ctx s;
                         events := events s ++
                           [NFTSold (object_id nft) (seller l) (sender (ctx s)) (price l);
                            OwnerUpdated (object_id nft) (owner nft) (sender (ctx s))];
                         transfers := transfers s ++
                           [(OCoin payment, seller l);
                            (ONft (set_owner (sender (ctx s)) nft), sender (ctx s))] |})
            else Abort ArithmeticError
          else Abort ArithmeticError
        else Abort ArithmeticError
      else Abort (ContractAbort EInsufficientPayment)
    end.
Proof. tx_unfold. tx_cases. Qed.

Lemma update_owner_eq (nft : NFT) (new_owner : address) (s : TxState) :
  update_owner nft new_owner s =
    if bool_decide (owner nft = sender (ctx s)) then
      Ok (tt, {| registry := registry s; ctx := ctx s;
                 events := events s ++
                   [OwnerUpdated (object_id nft) (owner nft) new_owner];
                 transfers := transfers s ++
                   [(ONft (set_owner new_owner nft), new_owner)] |})
    else Abort (ContractAbort ENotOwner).
Proof. tx_unfold. tx_cases. Qed.

(** ** Buying *)

(** C1, as the code has it: a call of [buy_nft] on a listed NFT with a
    payment of at least the price returns, provided the three counter
    updates stay within [u64] (sales + 1 and volume + price do not
    exceed [MAX_U64], the active-listings counter is at least 1). Then
    the listing is gone from the table, the NFT goes to the buyer with its
    owner field set to the buyer, the whole payment coin goes to the
    seller, sales grow by 1, volume by the listing's price (not by the
    payment), and active listings shrink by 1. *)
Theorem buy_nft_succeeds (nft : NFT) (payment : Coin) (s : TxState) (l : Listing) :
  listings (registry s) !! object_id nft = Some l ->
  price l <= coin_value payment ->
  total_sales (registry s) + 1 <= MAX_U64 ->
  total_volume (registry s) + price l <= MAX_U64 ->
  1 <= total_nfts_listed (registry s) ->
  exists s',
    buy_nft nft payment s = Ok (tt, s') /\
    listings (registry s') = delete (object_id nft) (listings (registry s)) /\
    listings (registry s') !! object_id nft = None /\
    transfers s' = transfers s ++
      [(OCoin payment, seller l);
       (ONft (set_owner (sender (ctx s)) nft), sender (ctx s))] /\
    owner (set_owner (sender (ctx s)) nft) = sender (ctx s) /\
    total_sales (registry s') = total_sales (registry s) + 1 /\
    total_volume (registry s') = total_volume (registry s) + price l /\
    total_nfts_listed (registry s') = total_nfts_listed (registry s) - 1 /\
    total_nfts_minted (registry s') = total_nfts_minted (registry s).
Proof.
  intros Hl Hpay Hsales Hvol Hlisted.
  rewrite buy_nft_eq, Hl.
  rewrite (proj2 (Z.leb_le _ _) Hpay), (proj2 (Z.leb_le _ _) Hsales),
    (proj2 (Z.leb_le _ _) Hvol), (proj2 (Z.leb_le _ _) Hlisted).
  eexists. split; [reflexivity |]. cbn.
  split_and!; try reflexivity. apply lookup_delete_eq.
Qed.

(** The spec's end-to-end run: after mint(A) and list(A, 100), buy(A, 150)
    by bob. *)
Lemma buy_nft_succeeds_witness :
  exists s',
    buy_nft (Scenario.plain_nft 0 Scenario.alice) (Scenario.coin 150)
      (start Scenario.listed_at_100 (Scenario.as_signer Scenario.bob)) = Ok (tt, s') /\
    transfers s' =
      [(OCoin (Scenario.coin 150), Scenario.alice);
       (ONft (set_owner Scenario.bob (Scenario.plain_nft 0 Scenario.alice)), Scenario.bob)] /\
    total_nfts_minted (registry s') = 1 /\
    total_nfts_listed (registry s') = 0 /\
    total_sales (registry s') = 1 /\
    total_volume (registry s') = 100.
Proof.
  destruct (buy_nft_succeeds (Scenario.plain_nft 0 Scenario.alice) (Scenario.coin 150)
              (start Scenario.listed_at_100 (Scenario.as_signer Scenario.bob))
              {| nft_id := 0%N; seller := Scenario.alice; price := 100; listed := true |})
    as (s' & Hrun & _ & _ & Htr & _ & Hsales & Hvol & Hlisted & Hminted).
  - reflexivity.
  - vm_compute. discriminate.
  - vm_compute. discriminate.
  - vm_compute. discriminate.
  - vm_compute. discriminate.
  - exists s'. split_and!; assumption.
Defined.

(** C1 as stated fails: in a world reached under Sui's holder rule, NFT 1
    is listed at 2^63 and the payment covers the price, yet [buy_nft]
    aborts, for [total_volume] already holds 2^63. *)
Lemma buy_nft_volume_overflow_counterexample :
  let w := Scenario.run Scenario.two_sellers in
  let t := Scenario.tx Scenario.market (CallBuy 1%N (Scenario.coin Scenario.half_range)) in
  exists nft l,
    resolve sui_owned w t = Some (OpBuy nft (Scenario.coin Scenario.half_range)) /\
    listings (w_registry w) !! object_id nft = Some l /\
    price l <= coin_value (Scenario.coin Scenario.half_range) /\
    Scenario.submit w t = Aborted ArithmeticError.
Proof.
  exists (Scenario.plain_nft 1 Scenario.bob).
  exists {| nft_id := 1%N; seller := Scenario.bob; price := Scenario.half_range;
            listed := true |}.
  split_and!; try (vm_compute; reflexivity).
  vm_compute. discriminate.
Qed.

(** C10, as the code has it: [buy_nft] never compares the buyer with the
    seller. When the signer is the listing's own seller and the payment
    covers the price, the call returns (under the same three [u64]
    provisos as any purchase): the payment coin goes back to that seller,
    the NFT goes to the seller with the owner field set to the seller, and
    sales and volume still grow by 1 and by the price. *)
Theorem buy_nft_by_seller (nft : NFT) (payment : Coin) (s : TxState) (l : Listing) :
  listings (registry s) !! object_id nft = Some l ->
  seller l = sender (ctx s) ->
  price l <= coin_value payment ->
  total_sales (registry s) + 1 <= MAX_U64 ->
  total_volume (registry s) + price l <= MAX_U64 ->
  1 <= total_nfts_listed (registry s) ->
  exists s',
    buy_nft nft payment s = Ok (tt, s') /\
    transfers s' = transfers s ++
      [(OCoin payment, seller l); (ONft (set_owner (seller l) nft), seller l)] /\
    owner (set_owner (seller l) nft) = seller l /\
    total_sales (registry s') = total_sales (registry s) + 1 /\
    total_volume (registry s') = total_volume (registry s) + price l.
Proof.
  intros Hl Hself Hpay Hsales Hvol Hlisted.
  rewrite buy_nft_eq, Hl.
  rewrite (proj2 (Z.leb_le _ _) Hpay), (proj2 (Z.leb_le _ _) Hsales),
    (proj2 (Z.leb_le _ _) Hvol), (proj2 (Z.leb_le _ _) Hlisted).
  eexists. split; [reflexivity |]. cbn. rewrite Hself.
  split_and!; reflexivity.
Qed.

(** alice buys back her own listing at 100 with a coin of 100. *)
Lemma buy_nft_by_seller_witness :
  exists s',
    buy_nft (Scenario.plain_nft 0 Scenario.alice) (Scenario.coin 100)
      (start Scenario.listed_at_100 (Scenario.as_signer Scenario.alice)) = Ok (tt, s') /\
    transfers s' =
      [(OCoin (Scenario.coin 100), Scenario.alice);
       (ONft (set_owner Scenario.alice (Scenario.plain_nft 0 Scenario.alice)),
        Scenario.alice)] /\
    total_sales (registry s') = 1 /\
    total_volume (registry s') = 100.
Proof.
  destruct (buy_nft_by_seller (Scenario.plain_nft 0 Scenario.alice) (Scenario.coin 100)
              (start Scenario.listed_at_100 (Scenario.as_signer Scenario.alice))
              {| nft_id := 0%N; seller := Scenario.alice; price := 100; listed := true |})
    as (s' & Hrun & Htr & _ & Hsales & Hvol).
  - reflexivity.
  - reflexivity.
  - vm_compute. discriminate.
  - vm_compute. discriminate.
  - vm_compute. discriminate.
  - vm_compute. discriminate.
  - exists s'. split_and!; assumption.
Defined.

(** C10 as stated fails: the marketplace address has sold NFT 0 to itself
    once at 2^63 and listed it again at 2^63; its second purchase of its
    own listing, fully paid, aborts on [total_volume]. *)
Lemma buy_nft_by_seller_overflow_counterexample :
  let w := Scenario.run Scenario.self_dealing in
  let t := Scenario.tx Scenario.market (CallBuy 0%N (Scenario.coin Scenario.half_range)) in
  exists nft l,
    resolve sui_owned w t = Some (OpBuy nft (Scenario.coin Scenario.half_range)) /\
    listings (w_registry w) !! object_id nft = Some l /\
    seller l = signer t /\
    price l <= coin_value (Scenario.coin Scenario.half_range) /\
    Scenario.submit w t = Aborted ArithmeticError.
Proof.
  exists (Scenario.plain_nft 0 Scenario.market).
  exists {| nft_id := 0%N; seller := Scenario.market; price := Scenario.half_range;
            listed := true |}.
  split_and!; try (vm_compute; reflexivity).
  vm_compute. discriminate.
Qed.

(** ** Listing *)

(** C5, as the code has it. [list_nft] checks in this order: the price
    (abort [EInvalidPrice] unless positive), then the owner field against
    the signer (abort [ENotOwner]), then [table::add], which aborts when
    the NFT already has a listing; a call on a listed NFT therefore always
    aborts and leaves the registry as it was. A call that passes the three
    checks returns provided the table size and the active-listings
    counter stay within [u64]; it stores the listing
    (nft_id, seller = signer, price, listed = true) and adds 1 to the
    counter. *)
Theorem list_nft_outcome (market : address) (nft : NFT) (p : u64)
    (r : NftMarketplaceRegistry) (c : TxContext) :
  (p <= 0 ->
     list_nft market nft p (start r c) = Abort (ContractAbort EInvalidPrice)) /\
  (0 < p -> owner nft <> sender c ->
     list_nft market nft p (start r c) = Abort (ContractAbort ENotOwner)) /\
  (0 < p -> owner nft = sender c ->
   is_Some (listings r !! object_id nft) ->
     list_nft market nft p (start r c) = Abort EFieldAlreadyExists) /\
  (is_Some (listings r !! object_id nft) ->
     registry_after market c (OpList nft p) r = r) /\
  (0 < p -> owner nft = sender c ->
   listings r !! object_id nft = None ->
   table_length (listings r) + 1 <= MAX_U64 ->
   total_nfts_listed r + 1 <= MAX_U64 ->
     exists s',
       list_nft market nft p (start r c) = Ok (tt, s') /\
       listings (registry s') =
         <[object_id nft := {| nft_id := object_id nft; seller := sender c;
                               price := p; listed := true |}]> (listings r) /\
       total_nfts_listed (registry s') = total_nfts_listed r + 1 /\
       total_nfts_minted (registry s') = total_nfts_minted r /\
       total_sales (registry s') = total_sales r /\
       total_volume (registry s') = total_volume r /\
       events s' = [NFTListed (object_id nft) (sender c) p] /\
       transfers s' = [(ONft nft, market)]).
Proof.
  split_and!.
  - intros Hp. rewrite list_nft_eq.
    destruct (Z.ltb_spec 0 p); [lia | reflexivity].
  - intros Hp Ho. rewrite list_nft_eq. cbn.
    destruct (Z.ltb_spec 0 p); [| lia].
    rewrite bool_decide_eq_false_2 by assumption. reflexivity.
  - intros Hp Ho [l Hl]. rewrite list_nft_eq. cbn.
    destruct (Z.ltb_spec 0 p); [| lia].
    rewrite bool_decide_eq_true_2 by assumption. rewrite Hl. reflexivity.
  - intros [l Hl]. unfold registry_after, run_op. rewrite list_nft_eq. cbn.
    rewrite Hl. destruct (0 <? p), (bool_decide (owner nft = sender c)); reflexivity.
  - intros Hp Ho Hl Hsize Hcount. rewrite list_nft_eq. cbn.
    destruct (Z.ltb_spec 0 p); [| lia].
    rewrite bool_decide_eq_true_2 by assumption. rewrite Hl.
    rewrite (proj2 (Z.leb_le _ _) Hsize), (proj2 (Z.leb_le _ _) Hcount).
    eexists. split; [reflexivity |]. cbn. split_and!; reflexivity.
Qed.

(** alice lists her NFT 0 at 100 on the fresh registry. *)
Lemma list_nft_outcome_witness :
  exists s',
    list_nft Scenario.market (Scenario.plain_nft 0 Scenario.alice) 100
      (start init_registry (Scenario.as_signer Scenario.alice)) = Ok (tt, s') /\
    listings (registry s') = listings Scenario.listed_at_100 /\
    total_nfts_listed (registry s') = 1.
Proof.
  destruct (list_nft_outcome Scenario.market (Scenario.plain_nft 0 Scenario.alice) 100
              init_registry (Scenario.as_signer Scenario.alice))
    as (_ & _ & _ & _ & Hok).
  destruct Hok as (s' & Hrun & Hl & Hn & _).
  - vm_compute. reflexivity.
  - reflexivity.
  - reflexivity.
  - vm_compute. discriminate.
  - vm_compute. discriminate.
  - exists s'. split_and!; [exact Hrun | rewrite Hl; vm_compute; reflexivity | exact Hn].
Defined.

(** C5 as stated fails twice. A caller who is not the owner and offers
    price 0 is told [EInvalidPrice], not [ENotOwner]: the price is checked
    first. And a call that passes every check still aborts when the
    active-listings counter is at [MAX_U64]. *)
Lemma list_nft_counterexample :
  let nft := Scenario.plain_nft 0 Scenario.alice in
  let full := set_total_nfts_listed MAX_U64 init_registry in
  (owner nft <> Scenario.bob /\
   list_nft Scenario.market nft 0 (start init_registry (Scenario.as_signer Scenario.bob))
     = Abort (ContractAbort EInvalidPrice) /\
   EInvalidPrice <> ENotOwner) /\
  (0 < 100 /\ owner nft = Scenario.alice /\
   listings full !! object_id nft = None /\
   list_nft Scenario.market nft 100 (start full (Scenario.as_signer Scenario.alice))
     = Abort ArithmeticError).
Proof.
  split_and!; try (vm_compute; reflexivity); vm_compute; discriminate.
Qed.

(** ** Failure is atomic *)

Lemma execute_not_committed (market : address) (admits : address -> address -> bool)
    (w : World) (t : Transaction) :
  (forall w', run_tx market admits w t <> Committed w') ->
  execute market admits w t = w.
Proof.
  intros H. unfold execute.
  destruct (run_tx market admits w t) as [w' | e |] eqn:E; try reflexivity.
  exfalso. exact (H w' eq_refl).
Qed.

Lemma execute_aborted (market : address) (admits : address -> address -> bool)
    (w : World) (t : Transaction) (e : abort_reason) :
  run_tx market admits w t = Aborted e -> execute market admits w t = w.
Proof. intros H. unfold execute. rewrite H. reflexivity. Qed.

(** Resolving a purchase depends on the signer and the NFT, not on the coin. *)
Lemma resolve_buy_any_payment (admits : address -> address -> bool) (w : World)
    (who : address) (id : ID) (nft : NFT) (payment payment' : Coin) :
  resolve admits w {| signer := who; call := CallBuy id payment |}
    = Some (OpBuy nft payment) ->
  resolve admits w {| signer := who; call := CallBuy id payment' |}
    = Some (OpBuy nft payment').
Proof.
  unfold resolve. cbn.
  destruct (take_nft admits w who id) as [n |]; cbn; [| discriminate].
  intros H. injection H as ->. reflexivity.
Qed.

(** C2: a transaction that does not commit leaves the world (registry,
    NFTs with their owner fields and holders, event log, payments) exactly
    as it was. In particular a [buy_nft] on a listed NFT with a payment
    below the price aborts with [EInsufficientPayment] and changes nothing:
    every later transaction has the outcome it would have had without the
    failed one, and the same signer's purchase with a sufficient payment
    commits (the counters staying within [u64]); and a [delist_nft] signed by
    somebody other than the listing's seller aborts with [ENotOwner] and
    changes nothing. *)
Theorem failed_operation_changes_nothing (market : address)
    (admits : address -> address -> bool) (w : World) :
  (forall t,
     (forall w', run_tx market admits w t <> Committed w') ->
       execute market admits w t = w) /\
  (forall who id payment nft l,
     let t := {| signer := who; call := CallBuy id payment |} in
     resolve admits w t = Some (OpBuy nft payment) ->
     listings (w_registry w) !! object_id nft = Some l ->
     coin_value payment < price l ->
       run_tx market admits w t = Aborted (ContractAbort EInsufficientPayment) /\
       execute market admits w t = w /\
       (forall t', run_tx market admits (execute market admits w t) t'
                   = run_tx market admits w t') /\
       forall payment',
         price l <= coin_value payment' ->
         total_sales (w_registry w) + 1 <= MAX_U64 ->
         total_volume (w_registry w) + price l <= MAX_U64 ->
         1 <= total_nfts_listed (w_registry w) ->
         exists w',
           run_tx market admits (execute market admits w t)
             {| signer := who; call := CallBuy id payment' |} = Committed w' /\
           listings (w_registry w') !! object_id nft = None) /\
  (forall who id nft l,
     let t := {| signer := who; call := CallDelist id |} in
     resolve admits w t = Some (OpDelist nft) ->
     listings (w_registry w) !! object_id nft = Some l ->
     seller l <> who ->
       run_tx market admits w t = Aborted (ContractAbort ENotOwner) /\
       execute market admits w t = w).
Proof.
  split_and!.
  - intros t. apply execute_not_committed.
  - intros who id payment nft l t Hres Hl Hlow.
    assert (Hrun : run_tx market admits w t
                   = Aborted (ContractAbort EInsufficientPayment)).
    { unfold run_tx. rewrite Hres. cbn [run_op]. rewrite buy_nft_eq. cbn.
      rewrite Hl. destruct (Z.leb_spec (price l) (coin_value payment)); [lia | reflexivity]. }
    assert (Hsame : execute market admits w t = w) by (eapply execute_aborted; eassumption).
    split_and!; [exact Hrun | exact Hsame | intros t'; rewrite Hsame; reflexivity |].
    intros payment' Hpay Hsales Hvol Hlisted. rewrite Hsame.
    apply (resolve_buy_any_payment _ _ _ _ _ _ payment') in Hres.
    unfold run_tx. rewrite Hres. cbn [run_op]. rewrite buy_nft_eq. cbn.
    rewrite Hl.
    rewrite (proj2 (Z.leb_le _ _) Hpay), (proj2 (Z.leb_le _ _) Hsales),
      (proj2 (Z.leb_le _ _) Hvol), (proj2 (Z.leb_le _ _) Hlisted).
    eexists. split; [reflexivity |]. cbn. apply lookup_delete_eq.
  - intros who id nft l t Hres Hl Hother.
    assert (Hrun : run_tx market admits w t = Aborted (ContractAbort ENotOwner)).
    { unfold run_tx. rewrite Hres. cbn [run_op]. rewrite delist_nft_eq. cbn.
      rewrite Hl. rewrite bool_decide_eq_false_2 by assumption. reflexivity. }
    split; [exact Hrun | eapply execute_aborted; eassumption].
Qed.

(** After alice listed NFT 0 at 100: a purchase with 50 aborts and changes
    nothing, a purchase with 150 then commits; a delisting signed by the
    marketplace address, which is not the seller, aborts and changes
    nothing. *)
Lemma failed_operation_changes_nothing_witness :
  let w := Scenario.run Scenario.alice_lists in
  let underpaid := Scenario.tx Scenario.market (CallBuy 0%N (Scenario.coin 50)) in
  let paid := Scenario.tx Scenario.market (CallBuy 0%N (Scenario.coin 150)) in
  let intruder := Scenario.tx Scenario.market (CallDelist 0%N) in
  (Scenario.submit w underpaid = Aborted (ContractAbort EInsufficientPayment) /\
   execute Scenario.market sui_owned w underpaid = w /\
   exists w',
     Scenario.submit (execute Scenario.market sui_owned w underpaid) paid = Committed w' /\
     listings (w_registry w') !! 0%N = None) /\
  (Scenario.submit w intruder = Aborted (ContractAbort ENotOwner) /\
   execute Scenario.market sui_owned w intruder = w).
Proof.
  intros w underpaid paid intruder.
  pose (l := {| nft_id := 0%N; seller := Scenario.alice; price := 100; listed := true |}).
  destruct (failed_operation_changes_nothing Scenario.market sui_owned w)
    as (_ & Hbuy & Hdelist).
  split.
  - destruct (Hbuy Scenario.market 0%N (Scenario.coin 50)
                (Scenario.plain_nft 0 Scenario.alice) l)
      as (Hrun & Hsame & _ & Hretry).
    + vm_compute. reflexivity.
    + vm_compute. reflexivity.
    + vm_compute. reflexivity.
    + split_and!; [exact Hrun | exact Hsame |].
      destruct (Hretry (Scenario.coin 150)) as (w' & Hpaid & Hgone).
      * vm_compute. discriminate.
      * vm_compute. discriminate.
      * vm_compute. discriminate.
      * vm_compute. discriminate.
      * exists w'. split; [exact Hpaid | exact Hgone].
  - apply (Hdelist Scenario.market 0%N (Scenario.plain_nft 0 Scenario.alice) l).
    + vm_compute. reflexivity.
    + vm_compute. reflexivity.
    + vm_compute. discriminate.
Defined.

(** ** The active-listings counter *)

Lemma table_length_insert_fresh (t : gmap ID Listing) (k : ID) (v : Listing) :
  t !! k = None -> table_length (<[k := v]> t) = table_length t + 1.
Proof.
  intros H. unfold table_length. rewrite map_size_insert_None by assumption. lia.
Qed.

Lemma table_length_delete_present (t : gmap ID Listing) (k : ID) (v : Listing) :
  t !! k = Some v -> table_length (delete k t) = table_length t - 1.
Proof.
  intros H. unfold table_length.
  assert (size t <> 0%nat) by (eapply map_size_ne_0_lookup_2; eauto).
  rewrite map_size_delete_Some by eauto. lia.
Qed.

Lemma counter_matches_step (market : address) (c : TxContext) (o : Op)
    (r : NftMarketplaceRegistry) :
  counter_matches r -> counter_matches (registry_after market c o r).
Proof.
  unfold counter_matches, registry_after. intros Hinv.
  destruct o as [n d u | nft p | nft | nft pay | nft a | nft a]; cbn [run_op].
  - rewrite mint_nft_eq.
    repeat match goal with |- context [if ?b then _ else _] => destruct b end;
      cbn; assumption.
  - rewrite list_nft_eq. cbn.
    destruct (listings r !! object_id nft) eqn:Hl;
      repeat match goal with |- context [if ?b then _ else _] => destruct b end;
      cbn; try assumption.
    rewrite table_length_insert_fresh by assumption. lia.
  - rewrite delist_nft_eq. cbn.
    destruct (listings r !! object_id nft) eqn:Hl;
      repeat match goal with |- context [if ?b then _ else _] => destruct b end;
      cbn; try assumption.
    erewrite table_length_delete_present by eassumption. lia.
  - rewrite buy_nft_eq. cbn.
    destruct (listings r !! object_id nft) eqn:Hl;
      repeat match goal with |- context [if ?b then _ else _] => destruct b end;
      cbn; try assumption.
    erewrite table_length_delete_present by eassumption. lia.
  - rewrite update_owner_eq. cbn.
    destruct (bool_decide (owner nft = sender c)); cbn; assumption.
  - cbn. assumption.
Qed.

(** C3: in every registry reachable from the initial one by any sequence
    of mint, list, delist, buy and owner-update calls (with any NFT value,
    signer and arguments), the active-listings counter equals the number
    of entries of the listings table. *)
Theorem listed_counter_is_table_size (market : address) (r : NftMarketplaceRegistry) :
  reachable_registry market r ->
  total_nfts_listed r = Z.of_nat (size (listings r)).
Proof.
  intros Hreach. change (counter_matches r).
  induction Hreach as [| r c o _ IH].
  - reflexivity.
  - apply counter_matches_step. exact IH.
Qed.

(** The registry after the mint and the listing of the spec's end-to-end
    run is reachable, and its counter is 1, the size of its table. *)
Lemma listed_counter_is_table_size_witness :
  let r := registry_after Scenario.market (Scenario.as_signer Scenario.alice)
             (OpList (Scenario.plain_nft 0 Scenario.alice) 100)
             (registry_after Scenario.market
                {| sender := Scenario.alice; ids_created := 0%N |}
                (OpMint [] [] []) init_registry) in
  r = Scenario.listed_at_100 /\
  total_nfts_listed r = Z.of_nat (size (listings r)).
Proof.
  intros r. split.
  - vm_compute. reflexivity.
  - apply (listed_counter_is_table_size Scenario.market r).
    apply reachable_step, reachable_step, reachable_init.
Defined.

(** ** One purchase per listing *)

Lemma not_listed_step (market : address) (c : TxContext) (o : Op)
    (r : NftMarketplaceRegistry) (id : ID) :
  listings r !! id = None ->
  lists_id id o = false ->
  listings (registry_after market c o r) !! id = None.
Proof.
  unfold registry_after. intros Hnone Hop.
  destruct o as [n d u | nft p | nft | nft pay | nft a | nft a]; cbn [run_op].
  - rewrite mint_nft_eq.
    repeat match goal with |- context [if ?b then _ else _] => destruct b end;
      cbn; assumption.
  - cbn in Hop. apply bool_decide_eq_false in Hop.
    rewrite list_nft_eq. cbn.
    destruct (listings r !! object_id nft) eqn:Hl;
      repeat match goal with |- context [if ?b then _ else _] => destruct b end;
      cbn; try assumption.
    rewrite lookup_insert_ne by assumption. assumption.
  - rewrite delist_nft_eq. cbn.
    destruct (listings r !! object_id nft) eqn:Hl;
      repeat match goal with |- context [if ?b then _ else _] => destruct b end;
      cbn; try assumption.
    rewrite lookup_delete. case_decide; [reflexivity | assumption].
  - rewrite buy_nft_eq. cbn.
    destruct (listings r !! object_id nft) eqn:Hl;
      repeat match goal with |- context [if ?b then _ else _] => destruct b end;
      cbn; try assumption.
    rewrite lookup_delete. case_decide; [reflexivity | assumption].
  - rewrite update_owner_eq. cbn.
    destruct (bool_decide (owner nft = sender c)); cbn; assumption.
  - cbn. assumption.
Qed.

Lemma not_listed_steps (market : address) (calls : list (TxContext * Op))
    (r : NftMarketplaceRegistry) (id : ID) :
  listings r !! id = None ->
  Forall (fun co => lists_id id co.2 = false) calls ->
  listings (registry_after_all market calls r) !! id = None.
Proof.
  intros Hnone Hcalls. revert r Hnone.
  induction Hcalls as [| [c o] calls Hco _ IH]; intros r Hnone; cbn.
  - exact Hnone.
  - apply IH. apply not_listed_step; assumption.
Qed.

(** C7: once a [buy_nft] on an NFT has returned, the NFT has no listing,
    and it has none after any further calls among which no [list_nft] of
    that NFT occurs; every [buy_nft] on it then aborts with [ENotListed]
    and leaves the registry as it was, and a transaction that submits
    such a purchase leaves the whole world as it was. *)
Theorem second_buy_fails (market : address) (r : NftMarketplaceRegistry)
    (c c' : TxContext) (nft nft' : NFT) (payment payment' : Coin) (s' : TxState)
    (calls : list (TxContext * Op)) :
  buy_nft nft payment (start r c) = Ok (tt, s') ->
  Forall (fun co => lists_id (object_id nft) co.2 = false) calls ->
  object_id nft' = object_id nft ->
  let later := registry_after_all market calls (registry s') in
  buy_nft nft' payment' (start later c') = Abort (ContractAbort ENotListed) /\
  registry_after market c' (OpBuy nft' payment') later = later /\
  forall admits w t,
    w_registry w = later ->
    resolve admits w t = Some (OpBuy nft' payment') ->
    run_tx market admits w t = Aborted (ContractAbort ENotListed) /\
    execute market admits w t = w.
Proof.
  intros Hbuy Hcalls Hid later.
  assert (Hgone : listings (registry s') !! object_id nft = None).
  { rewrite buy_nft_eq in Hbuy. cbn in Hbuy.
    destruct (listings r !! object_id nft) eqn:Hl; [| discriminate].
    repeat match type of Hbuy with
           | (if ?b then _ else _) = _ => destruct b; [| discriminate]
           end.
    injection Hbuy as <-. cbn. apply lookup_delete_eq. }
  assert (Hlater : listings later !! object_id nft' = None).
  { rewrite Hid. apply not_listed_steps; assumption. }
  assert (Hrun : forall c0, buy_nft nft' payment' (start later c0)
                            = Abort (ContractAbort ENotListed)).
  { intros c0. rewrite buy_nft_eq. cbn. rewrite Hlater. reflexivity. }
  split_and!.
  - apply Hrun.
  - unfold registry_after. cbn [run_op]. rewrite Hrun. reflexivity.
  - intros admits w t Hw Hres.
    assert (Htx : run_tx market admits w t = Aborted (ContractAbort ENotListed)).
    { unfold run_tx. rewrite Hres, Hw. cbn [run_op]. rewrite Hrun. reflexivity. }
    split; [exact Htx | eapply execute_aborted; exact Htx].
Qed.

(** bob buys alice's listing; carol mints and alice tries to delist; a
    later purchase attempt by carol finds no listing. *)
Lemma second_buy_fails_witness :
  exists s',
    buy_nft (Scenario.plain_nft 0 Scenario.alice) (Scenario.coin 150)
      (start Scenario.listed_at_100 (Scenario.as_signer Scenario.bob)) = Ok (tt, s') /\
    let later :=
      registry_after_all Scenario.market
        [(Scenario.as_signer Scenario.carol, OpMint [] [] []);
         (Scenario.as_signer Scenario.alice,
          OpDelist (Scenario.plain_nft 0 Scenario.alice))]
        (registry s') in
    buy_nft (set_owner Scenario.bob (Scenario.plain_nft 0 Scenario.alice))
      (Scenario.coin 150) (start later (Scenario.as_signer Scenario.carol))
      = Abort (ContractAbort ENotListed).
Proof.
  destruct (buy_nft (Scenario.plain_nft 0 Scenario.alice) (Scenario.coin 150)
              (start Scenario.listed_at_100 (Scenario.as_signer Scenario.bob)))
    as [[[] s'] | e] eqn:Hbuy; [| vm_compute in Hbuy; discriminate].
  exists s'. split; [reflexivity |].
  apply (second_buy_fails Scenario.market Scenario.listed_at_100
           (Scenario.as_signer Scenario.bob) (Scenario.as_signer Scenario.carol)
           (Scenario.plain_nft 0 Scenario.alice)
           (set_owner Scenario.bob (Scenario.plain_nft 0 Scenario.alice))
           (Scenario.coin 150) (Scenario.coin 150) s').
  - exact Hbuy.
  - repeat constructor.
  - reflexivity.
Defined.

(** ** The object store *)

(** From a returned call back to the tests it passed. *)
Ltac tx_invert H :=
  cbn in H;
  repeat match type of H with
         | match ?m !! ?k with _ => _ end = _ =>
             destruct (m !! k) eqn:?; try discriminate H
         | (if ?b then _ else _) = _ => destruct b eqn:?; try discriminate H
         end;
  injection H as <-.

Lemma take_nft_Some (admits : address -> address -> bool) (w : World)
    (who : address) (id : ID) (nft : NFT) :
  take_nft admits w who id = Some nft ->
  exists h, nfts w !! id = Some (nft, h) /\ admits who h = true.
Proof.
  unfold take_nft. destruct (nfts w !! id) as [[n h] |]; [| discriminate].
  destruct (admits who h) eqn:Ha; [| discriminate].
  intros H. injection H as ->. exists h. split; [reflexivity | exact Ha].
Qed.

Lemma run_tx_committed (market : address) (admits : address -> address -> bool)
    (w w' : World) (t : Transaction) :
  run_tx market admits w t = Committed w' ->
  exists o s,
    resolve admits w t = Some o /\
    run_op market o
      (start (w_registry w) {| sender := signer t; ids_created := next_id w |})
      = Ok (tt, s) /\
    w' = commit w (used_object (call t)) s.
Proof.
  unfold run_tx. destruct (resolve admits w t) as [o |]; [| discriminate].
  destruct (run_op market o _) as [[[] s] | e] eqn:Hrun; [| discriminate].
  intros H. injection H as <-. exists o, s.
  split_and!; first [reflexivity | exact Hrun].
Qed.

Lemma store_ok_init : store_ok init_world.
Proof. intros id n h H. cbn in H. rewrite lookup_empty in H. discriminate. Qed.

(** What a committed transaction does to the store and to the table of
    listings, call by call. *)
Lemma committed_store (market : address) (admits : address -> address -> bool)
    (w w' : World) (t : Transaction) :
  store_ok w ->
  run_tx market admits w t = Committed w' ->
  match call t with
  | CallMint n d u =>
      nfts w' = <[next_id w :=
                    ({| uid := next_id w; name := {| bytes := n |};
                        description := {| bytes := d |};
                        url := {| inner_url := {| ascii_bytes := u |} |};
                        creator := signer t; owner := signer t |}, signer t)]> (nfts w) /\
      next_id w' = N.succ (next_id w) /\
      listings (w_registry w') = listings (w_registry w)
  | CallList id p =>
      exists n h, nfts w !! id = Some (n, h) /\ admits (signer t) h = true /\
        owner n = signer t /\
        nfts w' = <[id := (n, market)]> (nfts w) /\ next_id w' = next_id w /\
        listings (w_registry w') =
          <[id := {| nft_id := id; seller := signer t; price := p; listed := true |}]>
            (listings (w_registry w))
  | CallDelist id =>
      exists n h l, nfts w !! id = Some (n, h) /\ admits (signer t) h = true /\
        listings (w_registry w) !! id = Some l /\ seller l = signer t /\
        nfts w' = <[id := (n, signer t)]> (nfts w) /\ next_id w' = next_id w /\
        listings (w_registry w') = delete id (listings (w_registry w))
  | CallBuy id _ =>
      exists n h l, nfts w !! id = Some (n, h) /\ admits (signer t) h = true /\
        nfts w' = <[id := (set_owner (signer t) n, signer t)]> (nfts w) /\
        next_id w' = next_id w /\
        listings (w_registry w') = delete id (listings (w_registry w)) /\
        listings (w_registry w) !! id = Some l /\
        event_log w' = event_log w ++
          [NFTSold id (seller l) (signer t) (price l);
           OwnerUpdated id (owner n) (signer t)]
  | CallUpdateOwner id a =>
      exists n h, nfts w !! id = Some (n, h) /\ admits (signer t) h = true /\
        owner n = signer t /\
        nfts w' = <[id := (set_owner a n, a)]> (nfts w) /\ next_id w' = next_id w /\
        listings (w_registry w') = listings (w_registry w)
  | CallTransfer id a =>
      exists n h, nfts w !! id = Some (n, h) /\ admits (signer t) h = true /\
        nfts w' = <[id := (n, a)]> (nfts w) /\ next_id w' = next_id w /\
        listings (w_registry w') = listings (w_registry w)
  end.
Proof.
  intros Hok Hrun.
  destruct (run_tx_committed _ _ _ _ _ Hrun) as (o & s & Hres & Hop & ->).
  destruct t as [who [n d u | id p | id | id pay | id a | id a]]; cbn in *;
    [ injection Hres as <-
    | destruct (take_nft admits w who id) as [nft |] eqn:Htake; [| discriminate];
      cbn in Hres; injection Hres as <-;
      destruct (take_nft_Some _ _ _ _ _ Htake) as (h & Hn & Hadm);
      destruct (Hok _ _ _ Hn) as [Hid _] .. ];
    cbn [run_op] in Hop.
  - rewrite mint_nft_eq in Hop. tx_invert Hop. cbn. split_and!; reflexivity.
  - rewrite list_nft_eq in Hop. tx_invert Hop.
    match goal with H : bool_decide _ = true |- _ => apply bool_decide_eq_true in H end.
    exists nft, h. unfold apply_transfer, object_id in *. cbn. rewrite ?Hid.
    rewrite insert_delete_eq. split_and!; first [reflexivity | eassumption].
  - rewrite delist_nft_eq in Hop. tx_invert Hop.
    match goal with H : bool_decide _ = true |- _ => apply bool_decide_eq_true in H end.
    eexists nft, h, _. unfold apply_transfer, object_id in *. cbn.
    rewrite Hid in *. rewrite insert_delete_eq.
    split_and!; first [reflexivity | eassumption].
  - rewrite buy_nft_eq in Hop. tx_invert Hop.
    eexists nft, h, _. unfold apply_transfer, object_id in *. cbn.
    rewrite Hid in *. rewrite insert_delete_eq.
    split_and!; first [reflexivity | eassumption].
  - rewrite update_owner_eq in Hop. tx_invert Hop.
    match goal with H : bool_decide _ = true |- _ => apply bool_decide_eq_true in H end.
    exists nft, h. unfold apply_transfer, object_id in *. cbn. rewrite ?Hid.
    rewrite insert_delete_eq. split_and!; first [reflexivity | eassumption].
  - cbn in Hop. injection Hop as <-.
    exists nft, h. unfold apply_transfer, object_id in *. cbn. rewrite ?Hid.
    rewrite insert_delete_eq. split_and!; first [reflexivity | eassumption].
Qed.

Lemma store_ok_execute (market : address) (admits : address -> address -> bool)
    (w : World) (t : Transaction) :
  store_ok w -> store_ok (execute market admits w t).
Proof.
  intros Hok. unfold execute.
  destruct (run_tx market admits w t) as [w' | e |] eqn:Hrun; try exact Hok.
  pose proof (committed_store _ _ _ _ _ Hok Hrun) as Hst.
  intros id0 n0 h0 Hget.
  destruct (call t) as [n d u | id p | id | id pay | id a | id a].
  - destruct Hst as (Hnfts & Hnext & _). rewrite Hnfts in Hget. rewrite Hnext.
    rewrite lookup_insert in Hget. case_decide.
    + injection Hget as <- <-. subst id0. cbn. split; [reflexivity | lia].
    + destruct (Hok _ _ _ Hget). split; [assumption | lia].
  - destruct Hst as (n & h & Hn & _ & _ & Hnfts & Hnext & _).
    rewrite Hnfts in Hget. rewrite Hnext.
    rewrite lookup_insert in Hget. case_decide.
    + injection Hget as <- <-. subst id0. exact (Hok _ _ _ Hn).
    + exact (Hok _ _ _ Hget).
  - destruct Hst as (n & h & l & Hn & _ & _ & _ & Hnfts & Hnext & _).
    rewrite Hnfts in Hget. rewrite Hnext.
    rewrite lookup_insert in Hget. case_decide.
    + injection Hget as <- <-. subst id0. exact (Hok _ _ _ Hn).
    + exact (Hok _ _ _ Hget).
  - destruct Hst as (n & h & l & Hn & _ & Hnfts & Hnext & _).
    rewrite Hnfts in Hget. rewrite Hnext.
    rewrite lookup_insert in Hget. case_decide.
    + injection Hget as <- <-. subst id0. exact (Hok _ _ _ Hn).
    + exact (Hok _ _ _ Hget).
  - destruct Hst as (n & h & Hn & _ & _ & Hnfts & Hnext & _).
    rewrite Hnfts in Hget. rewrite Hnext.
    rewrite lookup_insert in Hget. case_decide.
    + injection Hget as <- <-. subst id0. exact (Hok _ _ _ Hn).
    + exact (Hok _ _ _ Hget).
  - destruct Hst as (n & h & Hn & _ & Hnfts & Hnext & _).
    rewrite Hnfts in Hget. rewrite Hnext.
    rewrite lookup_insert in Hget. case_decide.
    + injection Hget as <- <-. subst id0. exact (Hok _ _ _ Hn).
    + exact (Hok _ _ _ Hget).
Qed.

Lemma reachable_store_ok (market : address) (admits : address -> address -> bool)
    (w : World) :
  reachable market admits w -> store_ok w.
Proof.
  intros [ts ->]. unfold run_trace.
  generalize store_ok_init. generalize init_world.
  induction ts as [| t ts IH]; intros w0 H0; cbn.
  - exact H0.
  - apply IH. apply store_ok_execute. exact H0.
Qed.

Lemma sui_owned_holder_only : holder_only sui_owned.
Proof. intros who holder H. apply bool_decide_eq_true in H. exact H. Qed.

(** ** Who changes the owner field *)

(** While no call rewrites the owner field of an NFT, its record stays as
    it is and every listing of it names that owner as seller. *)
Lemma owner_kept_execute (market : address) (admits : address -> address -> bool)
    (w : World) (t : Transaction) (id : ID) (n : NFT) :
  store_ok w ->
  rewrites_owner id (call t) = false ->
  (exists h, nfts w !! id = Some (n, h)) ->
  (forall l, listings (w_registry w) !! id = Some l -> seller l = owner n) ->
  (exists h, nfts (execute market admits w t) !! id = Some (n, h)) /\
  (forall l, listings (w_registry (execute market admits w t)) !! id = Some l ->
             seller l = owner n).
Proof.
  intros Hok Hcall [h Hget] Hsel. unfold execute.
  destruct (run_tx market admits w t) as [w' | e |] eqn:Hrun; [| eauto ..].
  pose proof (committed_store _ _ _ _ _ Hok Hrun) as Hst.
  destruct (call t) as [nm d u | id' p | id' | id' pay | id' a | id' a];
    cbn in Hcall; try apply bool_decide_eq_false in Hcall.
  - destruct Hst as (Hnfts & _ & Hlist). rewrite Hnfts, Hlist.
    destruct (Hok _ _ _ Hget) as [_ Hlt].
    rewrite lookup_insert_ne by lia. eauto.
  - destruct Hst as (n' & h' & Hn & _ & Hown & Hnfts & _ & Hlist).
    rewrite Hnfts, Hlist. destruct (decide (id' = id)) as [-> | Hne].
    + rewrite Hget in Hn. injection Hn as <- <-. rewrite lookup_insert_eq.
      split; [eauto |]. intros l Hl. rewrite lookup_insert_eq in Hl.
      injection Hl as <-. cbn. congruence.
    + rewrite !lookup_insert_ne by assumption. eauto.
  - destruct Hst as (n' & h' & l' & Hn & _ & _ & _ & Hnfts & _ & Hlist).
    rewrite Hnfts, Hlist. destruct (decide (id' = id)) as [-> | Hne].
    + rewrite Hget in Hn. injection Hn as <- <-. rewrite lookup_insert_eq.
      split; [eauto |]. intros l Hl. rewrite lookup_delete_eq in Hl. discriminate.
    + rewrite lookup_insert_ne, lookup_delete_ne by assumption. eauto.
  - destruct Hst as (n' & h' & l' & Hn & _ & Hnfts & _ & Hlist & _).
    rewrite Hnfts, Hlist.
    rewrite lookup_insert_ne, lookup_delete_ne by assumption. eauto.
  - destruct Hst as (n' & h' & Hn & _ & _ & Hnfts & _ & Hlist).
    rewrite Hnfts, Hlist. rewrite lookup_insert_ne by assumption. eauto.
  - destruct Hst as (n' & h' & Hn & _ & Hnfts & _ & Hlist).
    rewrite Hnfts, Hlist. destruct (decide (id' = id)) as [-> | Hne].
    + rewrite Hget in Hn. injection Hn as <- <-. rewrite lookup_insert_eq. eauto.
    + rewrite lookup_insert_ne by assumption. eauto.
Qed.

Lemma owner_kept_trace (market : address) (admits : address -> address -> bool)
    (ts : list Transaction) (w : World) (id : ID) (n : NFT) :
  store_ok w ->
  Forall (fun t => rewrites_owner id (call t) = false) ts ->
  (exists h, nfts w !! id = Some (n, h)) ->
  (forall l, listings (w_registry w) !! id = Some l -> seller l = owner n) ->
  (exists h, nfts (run_trace market admits w ts) !! id = Some (n, h)) /\
  (forall l, listings (w_registry (run_trace market admits w ts)) !! id = Some l ->
             seller l = owner n).
Proof.
  intros Hok Hts. revert w Hok.
  induction Hts as [| t ts Ht _ IH]; intros w Hok Hget Hsel; cbn.
  - split; assumption.
  - destruct (owner_kept_execute market admits w t id n Hok Ht Hget Hsel)
      as [Hget1 Hsel1].
    apply IH; [apply store_ok_execute; exact Hok | exact Hget1 | exact Hsel1].
Qed.

(** C8, as the code has it: over any reachable world. First, what each
    committed transaction does to a stored NFT. A mint leaves every
    stored NFT as it is. A committed [list_nft] moves the NFT to the
    marketplace address and leaves its record, owner field included,
    untouched: the field still names the signer, who is the listing's
    seller. A committed [delist_nft] is signed by the listing's seller
    and hands the NFT to that seller with the record as it was before the
    call: [delist_nft] neither reads nor writes the owner field. Only
    [buy_nft] and [update_owner] store a different owner field, the buyer
    and the new owner, and only in the NFT they are called on; a plain
    transfer changes the holder and nothing else. Second, when the owner
    field of a delisted NFT is the seller: after a committed [list_nft],
    through any transactions among which no [buy_nft] or [update_owner]
    on that NFT occurs, the record stays the one that was listed, its
    owner field names the signer of the listing, and any listing of the
    NFT in the table names that signer as seller. *)
Theorem owner_field_frame (market : address) (admits : address -> address -> bool)
    (w : World) :
  reachable market admits w ->
  (forall w' t id n h,
     run_tx market admits w t = Committed w' ->
     nfts w !! id = Some (n, h) ->
     match call t with
     | CallMint _ _ _ => nfts w' !! id = Some (n, h)
     | CallList id' _ =>
         if decide (id' = id)
         then nfts w' !! id = Some (n, market) /\ owner n = signer t
         else nfts w' !! id = Some (n, h)
     | CallDelist id' =>
         if decide (id' = id)
         then exists l,
                listings (w_registry w) !! id = Some l /\ seller l = signer t /\
                nfts w' !! id = Some (n, seller l)
         else nfts w' !! id = Some (n, h)
     | CallBuy id' _ =>
         nfts w' !! id =
           if decide (id' = id) then Some (set_owner (signer t) n, signer t)
           else Some (n, h)
     | CallUpdateOwner id' a =>
         nfts w' !! id =
           if decide (id' = id) then Some (set_owner a n, a) else Some (n, h)
     | CallTransfer id' a =>
         nfts w' !! id = if decide (id' = id) then Some (n, a) else Some (n, h)
     end) /\
  (forall w1 who id p n h ts,
     nfts w !! id = Some (n, h) ->
     run_tx market admits w {| signer := who; call := CallList id p |} = Committed w1 ->
     Forall (fun t => rewrites_owner id (call t) = false) ts ->
     let w2 := run_trace market admits w1 ts in
     owner n = who /\
     (exists h2, nfts w2 !! id = Some (n, h2)) /\
     (forall l, listings (w_registry w2) !! id = Some l -> seller l = who)).
Proof.
  intros Hreach.
  pose proof (reachable_store_ok _ _ _ Hreach) as Hok.
  split.
  - intros w' t id n h Hrun Hget.
    pose proof (committed_store _ _ _ _ _ Hok Hrun) as Hst.
    destruct (call t) as [nm d u | id' p | id' | id' pay | id' a | id' a].
    + destruct Hst as (Hnfts & _ & _). rewrite Hnfts.
      destruct (Hok _ _ _ Hget) as [_ Hlt].
      rewrite lookup_insert_ne by lia. exact Hget.
    + destruct Hst as (n' & h' & Hn & _ & Hown & Hnfts & _ & _). rewrite Hnfts.
      case_decide.
      * subst id'. rewrite Hget in Hn. injection Hn as <- <-.
        rewrite lookup_insert_eq. split; [reflexivity | exact Hown].
      * rewrite lookup_insert_ne by assumption. exact Hget.
    + destruct Hst as (n' & h' & l & Hn & Hadm & Hl & Hsel & Hnfts & _ & _).
      rewrite Hnfts. case_decide.
      * subst id'. rewrite Hget in Hn. injection Hn as <- <-.
        exists l. rewrite lookup_insert_eq, Hsel.
        split_and!; try reflexivity; assumption.
      * rewrite lookup_insert_ne by assumption. exact Hget.
    + destruct Hst as (n' & h' & l & Hn & _ & Hnfts & _ & _). rewrite Hnfts.
      case_decide.
      * subst id'. rewrite Hget in Hn. injection Hn as <- <-.
        apply lookup_insert_eq.
      * rewrite lookup_insert_ne by assumption. exact Hget.
    + destruct Hst as (n' & h' & Hn & _ & _ & Hnfts & _ & _). rewrite Hnfts.
      case_decide.
      * subst id'. rewrite Hget in Hn. injection Hn as <- <-.
        apply lookup_insert_eq.
      * rewrite lookup_insert_ne by assumption. exact Hget.
    + destruct Hst as (n' & h' & Hn & _ & Hnfts & _ & _). rewrite Hnfts.
      case_decide.
      * subst id'. rewrite Hget in Hn. injection Hn as <- <-.
        apply lookup_insert_eq.
      * rewrite lookup_insert_ne by assumption. exact Hget.
  - intros w1 who id p n h ts Hget Hrun Hts w2.
    destruct (committed_store _ _ _ _ _ Hok Hrun)
      as (n' & h' & Hn & _ & Hown & Hnfts & _ & Hlist).
    cbn in Hown. rewrite Hget in Hn. injection Hn as <- <-.
    assert (Hok1 : store_ok w1).
    { pose proof (store_ok_execute market admits w
                    {| signer := who; call := CallList id p |} Hok) as H.
      unfold execute in H. rewrite Hrun in H. exact H. }
    destruct (owner_kept_trace market admits ts w1 id n Hok1 Hts) as [Hget2 Hsel2].
    + exists market. rewrite Hnfts. apply lookup_insert_eq.
    + intros l Hl. rewrite Hlist, lookup_insert_eq in Hl.
      injection Hl as <-. cbn. congruence.
    + split_and!; [exact Hown | exact Hget2 |].
      intros l Hl. rewrite <- Hown. exact (Hsel2 l Hl).
Qed.

(** alice lists NFT 0, the marketplace address sends it back to her, and
    she delists: the NFT comes back to the seller with the record that
    was listed, owner field alice. *)
Lemma owner_field_frame_witness :
  let w := Scenario.run [Scenario.tx Scenario.alice (CallMint [] [] [])] in
  let n := Scenario.plain_nft 0 Scenario.alice in
  let listing := Scenario.tx Scenario.alice (CallList 0%N 100) in
  let delisting := Scenario.tx Scenario.alice (CallDelist 0%N) in
  exists w1 w2 w3,
    Scenario.submit w listing = Committed w1 /\
    w2 = run_trace Scenario.market sui_owned w1
           [Scenario.tx Scenario.market (CallTransfer 0%N Scenario.alice)] /\
    Scenario.submit w2 delisting = Committed w3 /\
    nfts w3 !! 0%N = Some (n, Scenario.alice) /\
    owner n = Scenario.alice /\
    forall l, listings (w_registry w2) !! 0%N = Some l -> seller l = Scenario.alice.
Proof.
  intros w n listing delisting.
  pose (w1 := Scenario.run Scenario.alice_lists).
  pose (w2 := run_trace Scenario.market sui_owned w1
                [Scenario.tx Scenario.market (CallTransfer 0%N Scenario.alice)]).
  assert (Hrun1 : Scenario.submit w listing = Committed w1) by (vm_compute; reflexivity).
  destruct (Scenario.submit w2 delisting) as [w3 | e |] eqn:Hrun3;
    [| vm_compute in Hrun3; discriminate ..].
  assert (Hreach : reachable Scenario.market sui_owned w).
  { eexists. reflexivity. }
  assert (Hreach2 : reachable Scenario.market sui_owned w2).
  { exists Scenario.handed_back. vm_compute. reflexivity. }
  assert (Hget : nfts w !! 0%N = Some (n, Scenario.alice)) by (vm_compute; reflexivity).
  assert (Hget2 : nfts w2 !! 0%N = Some (n, Scenario.alice)) by (vm_compute; reflexivity).
  destruct (owner_field_frame Scenario.market sui_owned w Hreach) as [_ Hkept].
  destruct (Hkept w1 Scenario.alice 0%N 100 n Scenario.alice
              [Scenario.tx Scenario.market (CallTransfer 0%N Scenario.alice)]
              Hget Hrun1) as (Hown & _ & Hsel).
  { repeat constructor. }
  destruct (owner_field_frame Scenario.market sui_owned w2 Hreach2) as [Hframe _].
  pose proof (Hframe w3 delisting 0%N n Scenario.alice Hrun3 Hget2) as H.
  cbn [call delisting Scenario.tx] in H.
  destruct (decide (0%N = 0%N)) as [_ | Hne]; [| exfalso; apply Hne; reflexivity].
  destruct H as (l & Hl & Hseller & Hback).
  exists w1, w2, w3.
  split_and!; [exact Hrun1 | reflexivity | exact Hrun3 | | exact Hown | exact Hsel].
  rewrite Hback. f_equal. f_equal. exact Hseller.
Defined.

(** C8 as stated fails for the delisting: the owner field of the NFT that
    comes back need not name the seller. alice lists NFT 0; the
    marketplace address sends it back to her; she passes it to carol with
    [update_owner]; carol sends it back to alice. alice, still the seller
    of the listing, delists: the call commits and the NFT it returns to
    alice names carol as owner. *)
Lemma delisted_owner_is_not_seller_counterexample :
  let w := Scenario.run Scenario.owner_moved_on in
  let t := Scenario.tx Scenario.alice (CallDelist 0%N) in
  reachable Scenario.market sui_owned w /\
  exists w' l n,
    listings (w_registry w) !! 0%N = Some l /\
    seller l = Scenario.alice /\
    Scenario.submit w t = Committed w' /\
    nfts w' !! 0%N = Some (n, Scenario.alice) /\
    owner n = Scenario.carol /\
    owner n <> seller l.
Proof.
  intros w t. split.
  - exists Scenario.owner_moved_on. reflexivity.
  - do 3 eexists.
    split_and!; try (vm_compute; reflexivity).
    vm_compute. discriminate.
Qed.

(** ** Owner update *)

(** C4, as the code has it: [update_owner] has no access to the registry.
    It returns exactly when the NFT's owner field names the signer,
    whatever the listings table holds, and aborts with [ENotOwner]
    otherwise; when it returns the registry is the one it started from,
    so a listing of that NFT is still in the table. What stands in the
    way of a transfer during a sale is custody alone: when the runtime
    lets only the holder pass an object (Sui's rule) and the NFT is held
    by the marketplace address, an [update_owner] on it commits only if
    the signer is the marketplace address and the owner field names it. *)
Theorem update_owner_ignores_listings (nft : NFT) (new_owner : address) (s : TxState) :
  (owner nft = sender (ctx s) ->
     exists s',
       update_owner nft new_owner s = Ok (tt, s') /\
       registry s' = registry s /\
       listings (registry s') !! object_id nft = listings (registry s) !! object_id nft /\
       transfers s' = transfers s ++ [(ONft (set_owner new_owner nft), new_owner)]) /\
  (owner nft <> sender (ctx s) ->
     update_owner nft new_owner s = Abort (ContractAbort ENotOwner)) /\
  (forall market admits w w' who id n,
     holder_only admits ->
     reachable market admits w ->
     nfts w !! id = Some (n, market) ->
     run_tx market admits w {| signer := who; call := CallUpdateOwner id new_owner |}
       = Committed w' ->
     who = market /\ owner n = market).
Proof.
  split_and!.
  - intros Ho. rewrite update_owner_eq.
    rewrite bool_decide_eq_true_2 by assumption.
    eexists. split; [reflexivity |]. cbn. split_and!; reflexivity.
  - intros Ho. rewrite update_owner_eq.
    rewrite bool_decide_eq_false_2 by assumption. reflexivity.
  - intros market admits w w' who id n Hstrict Hreach Hget Hrun.
    pose proof (reachable_store_ok _ _ _ Hreach) as Hok.
    destruct (committed_store _ _ _ _ _ Hok Hrun)
      as (n' & h' & Hn & Hadm & Hown & _).
    cbn in Hadm, Hown. rewrite Hget in Hn. injection Hn as <- <-.
    apply Hstrict in Hadm. split; congruence.
Qed.

(** alice hands her listed NFT 0 to bob: the call returns and the listing
    at 100 stays. *)
Lemma update_owner_ignores_listings_witness :
  exists s',
    update_owner (Scenario.plain_nft 0 Scenario.alice) Scenario.bob
      (start Scenario.listed_at_100 (Scenario.as_signer Scenario.alice)) = Ok (tt, s') /\
    registry s' = Scenario.listed_at_100 /\
    transfers s' =
      [(ONft (set_owner Scenario.bob (Scenario.plain_nft 0 Scenario.alice)), Scenario.bob)].
Proof.
  destruct (update_owner_ignores_listings (Scenario.plain_nft 0 Scenario.alice)
              Scenario.bob
              (start Scenario.listed_at_100 (Scenario.as_signer Scenario.alice)))
    as (Hok & _ & _).
  destruct Hok as (s' & Hrun & Hreg & _ & Htr); [reflexivity |].
  exists s'. split_and!; assumption.
Defined.

(** C4 as stated fails, also under Sui's holder rule: the marketplace
    address lists its own NFT 0 and, while the listing is active, passes
    the NFT on to bob. The transaction commits; bob holds the NFT, its
    owner field names bob, and the listing with the old seller is still
    in the table. *)
Lemma update_owner_while_listed_counterexample :
  let w := Scenario.run Scenario.market_lists in
  let t := Scenario.tx Scenario.market (CallUpdateOwner 0%N Scenario.bob) in
  is_Some (listings (w_registry w) !! 0%N) /\
  exists w',
    Scenario.submit w t = Committed w' /\
    nfts w' !! 0%N
      = Some (set_owner Scenario.bob (Scenario.plain_nft 0 Scenario.market), Scenario.bob) /\
    listings (w_registry w') !! 0%N
      = Some {| nft_id := 0%N; seller := Scenario.market; price := 5; listed := true |} /\
    reachable Scenario.market sui_owned w'.
Proof.
  intros w t. split.
  - eexists. vm_compute. reflexivity.
  - eexists.
    split; [vm_compute; reflexivity |].
    split; [vm_compute; reflexivity |].
    split; [vm_compute; reflexivity |].
    exists (Scenario.market_lists ++ [t]). vm_compute. reflexivity.
Qed.

(** ** Events *)

(** C6, as the code has it: a call that returns appends to the event log
    exactly the events below. [buy_nft] emits two, [NFTSold] with the
    listing's seller and price, then [OwnerUpdated] whose [old_owner] is
    the owner field the NFT carried into the call (the listing's seller
    is not consulted for it) and whose [new_owner] is the buyer. Every
    other entry function emits exactly one event; a plain transfer, which
    is the framework's and not the module's, emits none. A committed
    purchase appends those two events, read off the stored NFT and the
    listing, to the log of the world. *)
Theorem events_of_returned_call (market : address) :
  (forall o s s',
     run_op market o s = Ok (tt, s') ->
     match o with
     | OpBuy nft _ =>
         exists l, listings (registry s) !! object_id nft = Some l /\
           events s' = events s ++
             [NFTSold (object_id nft) (seller l) (sender (ctx s)) (price l);
              OwnerUpdated (object_id nft) (owner nft) (sender (ctx s))]
     | OpMint n _ u =>
         events s' = events s ++
           [NFTMinted (ids_created (ctx s)) (sender (ctx s)) (sender (ctx s))
              {| bytes := n |} {| bytes := u |}]
     | OpList nft p =>
         events s' = events s ++ [NFTListed (object_id nft) (sender (ctx s)) p]
     | OpDelist nft =>
         events s' = events s ++ [NFTDelisted (object_id nft) (sender (ctx s))]
     | OpUpdateOwner nft a =>
         events s' = events s ++ [OwnerUpdated (object_id nft) (owner nft) a]
     | OpTransfer _ _ => events s' = events s
     end) /\
  (forall admits w w' who id pay,
     reachable market admits w ->
     run_tx market admits w {| signer := who; call := CallBuy id pay |} = Committed w' ->
     exists n h l,
       nfts w !! id = Some (n, h) /\
       listings (w_registry w) !! id = Some l /\
       event_log w' = event_log w ++
         [NFTSold id (seller l) who (price l); OwnerUpdated id (owner n) who]).
Proof.
  split.
  - intros o s s' Hrun.
    destruct o as [n d u | nft p | nft | nft pay | nft a | nft a]; cbn [run_op] in Hrun.
    + rewrite mint_nft_eq in Hrun. tx_invert Hrun. reflexivity.
    + rewrite list_nft_eq in Hrun. tx_invert Hrun. reflexivity.
    + rewrite delist_nft_eq in Hrun. tx_invert Hrun. reflexivity.
    + rewrite buy_nft_eq in Hrun. tx_invert Hrun.
      eexists. split; [reflexivity | reflexivity].
    + rewrite update_owner_eq in Hrun. tx_invert Hrun. reflexivity.
    + cbn in Hrun. injection Hrun as <-. reflexivity.
  - intros admits w w' who id pay Hreach Hrun.
    pose proof (reachable_store_ok _ _ _ Hreach) as Hok.
    destruct (committed_store _ _ _ _ _ Hok Hrun)
      as (n & h & l & Hn & _ & _ & _ & _ & Hl & Hlog).
    cbn in Hlog. exists n, h, l. split_and!; assumption.
Qed.

(** bob buys alice's listing at 100: two events, in this order. *)
Lemma events_of_returned_call_witness :
  exists s',
    buy_nft (Scenario.plain_nft 0 Scenario.alice) (Scenario.coin 150)
      (start Scenario.listed_at_100 (Scenario.as_signer Scenario.bob)) = Ok (tt, s') /\
    events s' = [NFTSold 0%N Scenario.alice Scenario.bob 100;
                 OwnerUpdated 0%N Scenario.alice Scenario.bob].
Proof.
  destruct (buy_nft (Scenario.plain_nft 0 Scenario.alice) (Scenario.coin 150)
              (start Scenario.listed_at_100 (Scenario.as_signer Scenario.bob)))
    as [[[] s'] | e] eqn:Hbuy; [| vm_compute in Hbuy; discriminate].
  exists s'. split; [reflexivity |].
  destruct (proj1 (events_of_returned_call Scenario.market)
              (OpBuy (Scenario.plain_nft 0 Scenario.alice) (Scenario.coin 150))
              _ s' Hbuy) as (l & Hl & Hev).
  vm_compute in Hl. injection Hl as <-. exact Hev.
Defined.

(** C6 as stated fails, also under Sui's holder rule: after the
    marketplace address listed NFT 0 and passed it on to bob, bob buys
    it. The listing's seller is the marketplace address, yet the
    [OwnerUpdated] event names bob as the old owner. *)
Lemma old_owner_is_not_seller_counterexample :
  let w := Scenario.run (Scenario.market_lists ++
                         [Scenario.tx Scenario.market (CallUpdateOwner 0%N Scenario.bob)]) in
  let t := Scenario.tx Scenario.bob (CallBuy 0%N (Scenario.coin 5)) in
  exists w' l,
    listings (w_registry w) !! 0%N = Some l /\
    seller l = Scenario.market /\
    Scenario.submit w t = Committed w' /\
    event_log w' = event_log w ++
      [NFTSold 0%N Scenario.market Scenario.bob 5;
       OwnerUpdated 0%N Scenario.bob Scenario.bob] /\
    Scenario.bob <> seller l.
Proof.
  intros w t. do 2 eexists.
  split_and!; try (vm_compute; reflexivity).
  vm_compute. discriminate.
Qed.

(** ** Minting *)

(** C9, as the code has it. A mint whose name or description is not valid
    UTF-8 aborts and leaves the world (registry, listings table, event
    log) as it was. The URL bytes are not parsed as a URL, but
    [url::new_unsafe_from_bytes] builds an ASCII string from them: with a
    valid name, a URL holding a byte above 0x7F makes the mint abort with
    [EInvalidASCIICharacter]. With a valid name and description and an
    ASCII URL the mint commits, as long as the minted counter is below
    [MAX_U64], and stores the URL bytes as given. *)
Theorem mint_nft_validation (market : address) (admits : address -> address -> bool)
    (w : World) (who : address) (n d u : list byte) :
  let t := {| signer := who; call := CallMint n d u |} in
  (internal_check_utf8 n = false \/ internal_check_utf8 d = false ->
     (exists e, run_tx market admits w t = Aborted e /\
                (e = EInvalidUTF8 \/ e = EInvalidASCIICharacter)) /\
     execute market admits w t = w) /\
  (internal_check_utf8 n = true -> forallb is_valid_char u = false ->
     run_tx market admits w t = Aborted EInvalidASCIICharacter /\
     execute market admits w t = w) /\
  (internal_check_utf8 n = true -> internal_check_utf8 d = true ->
   forallb is_valid_char u = true ->
   total_nfts_minted (w_registry w) + 1 <= MAX_U64 ->
     exists w' nft,
       run_tx market admits w t = Committed w' /\
       nfts w' !! next_id w = Some (nft, who) /\
       url nft = {| inner_url := {| ascii_bytes := u |} |} /\
       owner nft = who /\
       total_nfts_minted (w_registry w') = total_nfts_minted (w_registry w) + 1 /\
       listings (w_registry w') = listings (w_registry w) /\
       event_log w' = event_log w ++
         [NFTMinted (next_id w) who who {| bytes := n |} {| bytes := u |}]).
Proof.
  intros t.
  assert (Hrun : run_tx market admits w t =
                 match mint_nft n d u
                         (start (w_registry w)
                            {| sender := who; ids_created := next_id w |}) with
                 | Ok (_, s) => Committed (commit w None s)
                 | Abort e => Aborted e
                 end) by reflexivity.
  rewrite mint_nft_eq in Hrun.
  cbn [start registry ctx sender ids_created events transfers app] in Hrun.
  split_and!.
  - intros Hbad.
    assert (Habort : exists e, run_tx market admits w t = Aborted e /\
                               (e = EInvalidUTF8 \/ e = EInvalidASCIICharacter)).
    { rewrite Hrun.
      destruct (internal_check_utf8 n); [| eauto].
      destruct (forallb is_valid_char u); [| eauto].
      destruct Hbad as [Hbad | Hbad]; [discriminate |].
      rewrite Hbad. eauto. }
    split; [exact Habort |].
    destruct Habort as (e & He & _). eapply execute_aborted. exact He.
  - intros Hn Hu. rewrite Hn, Hu in Hrun.
    split; [exact Hrun | eapply execute_aborted; exact Hrun].
  - intros Hn Hd Hu Hmint.
    rewrite Hn, Hu, Hd, (proj2 (Z.leb_le _ _) Hmint) in Hrun.
    do 2 eexists. split; [exact Hrun |]. cbn. unfold apply_transfer. cbn.
    rewrite lookup_insert_eq. split_and!; reflexivity.
Qed.

(** alice mints "NFT" with an ASCII URL on the fresh world. *)
Lemma mint_nft_validation_witness :
  let n := ["N"; "F"; "T"]%byte in
  let u := ["h"; "t"; "t"; "p"; ":"; "/"; "/"; "a"]%byte in
  exists w' nft,
    Scenario.submit init_world (Scenario.tx Scenario.alice (CallMint n [] u))
      = Committed w' /\
    nfts w' !! 0%N = Some (nft, Scenario.alice) /\
    url nft = {| inner_url := {| ascii_bytes := u |} |} /\
    total_nfts_minted (w_registry w') = 1.
Proof.
  intros n u.
  destruct (mint_nft_validation Scenario.market sui_owned init_world Scenario.alice n [] u)
    as (_ & _ & Hok).
  destruct Hok as (w' & nft & Hrun & Hget & Hurl & _ & Hminted & _).
  - reflexivity.
  - reflexivity.
  - reflexivity.
  - vm_compute. discriminate.
  - exists w', nft. split_and!; assumption.
Defined.

(** C9 as stated fails: with a valid name and description, a URL that
    holds the two bytes of a UTF-8 "e acute" makes the mint abort. *)
Lemma mint_nft_non_ascii_url_counterexample :
  let n := ["N"; "F"; "T"]%byte in
  let d := ["a"; "r"; "t"]%byte in
  let u := ["h"; "t"; "t"; "p"; ":"; "/"; "/"; xc3; xa9]%byte in
  internal_check_utf8 n = true /\
  internal_check_utf8 d = true /\
  internal_check_utf8 u = true /\
  mint_nft n d u (start init_registry (Scenario.as_signer Scenario.alice))
    = Abort EInvalidASCIICharacter /\
  Scenario.submit init_world (Scenario.tx Scenario.alice (CallMint n d u))
    = Aborted EInvalidASCIICharacter.
Proof.
  split_and!; vm_compute; reflexivity.
Qed.

(** * Further properties of the module *)

(** ** Registry invariants *)

(** Case on the tests of a normal form, keeping each as a proposition. *)
Ltac tx_branch :=
  repeat match goal with
         | |- context [if ?a <=? ?b then _ else _] => destruct (Z.leb_spec a b)
         | |- context [if ?a <? ?b then _ else _] => destruct (Z.ltb_spec a b)
         | |- context [if bool_decide ?P then _ else _] =>
             destruct (bool_decide_reflect P)
         | |- context [if ?c then _ else _] => destruct c eqn:?
         | |- context [match ?m !! ?k with _ => _ end] => destruct (m !! k) eqn:?
         end.

Lemma listing_ok_step (market : address) (c : TxContext) (o : Op)
    (r : NftMarketplaceRegistry) :
  listing_ok r -> listing_ok (registry_after market c o r).
Proof.
  unfold registry_after. intros Hinv.
  destruct o as [n d u | nft p | nft | nft pay | nft a | nft a]; cbn [run_op].
  - rewrite mint_nft_eq. cbn. tx_branch; cbn; assumption.
  - rewrite list_nft_eq. cbn. tx_branch; cbn; try assumption.
    intros id l Hl. cbn in Hl. rewrite lookup_insert in Hl. case_decide.
    + injection Hl as <-. cbn. split_and!; [assumption | reflexivity | assumption].
    + exact (Hinv _ _ Hl).
  - rewrite delist_nft_eq. cbn. tx_branch; cbn; try assumption.
    intros id l' Hl. cbn in Hl. rewrite lookup_delete in Hl.
    case_decide; [discriminate | exact (Hinv _ _ Hl)].
  - rewrite buy_nft_eq. cbn. tx_branch; cbn; try assumption.
    intros id l' Hl. cbn in Hl. rewrite lookup_delete in Hl.
    case_decide; [discriminate | exact (Hinv _ _ Hl)].
  - rewrite update_owner_eq. cbn. tx_branch; cbn; assumption.
  - cbn. assumption.
Qed.

Lemma counters_in_range_step (market : address) (c : TxContext) (o : Op)
    (r : NftMarketplaceRegistry) :
  listing_ok r -> counters_in_range r ->
  counters_in_range (registry_after market c o r).
Proof.
  unfold registry_after, counters_in_range. intros Hl Hinv.
  destruct o as [n d u | nft p | nft | nft pay | nft a | nft a]; cbn [run_op].
  - rewrite mint_nft_eq. cbn. tx_branch; cbn; lia.
  - rewrite list_nft_eq. cbn. tx_branch; cbn; lia.
  - rewrite delist_nft_eq. cbn. tx_branch; cbn; lia.
  - rewrite buy_nft_eq. cbn.
    destruct (listings r !! object_id nft) as [l |] eqn:Hget; [| cbn; lia].
    destruct (Hl _ _ Hget) as (_ & _ & Hpos).
    tx_branch; cbn; lia.
  - rewrite update_owner_eq. cbn. tx_branch; cbn; lia.
  - cbn. lia.
Qed.

(** What every reachable registry satisfies. *)
Lemma reachable_registry_wf (market : address) (r : NftMarketplaceRegistry) :
  reachable_registry market r ->
  counter_matches r /\ listing_ok r /\ counters_in_range r.
Proof.
  induction 1 as [| r c o _ (Hc & Hl & Hr)].
  - split_and!.
    + reflexivity.
    + intros id l H. cbn in H. rewrite lookup_empty in H. discriminate.
    + unfold counters_in_range. cbn. unfold MAX_U64. lia.
  - split_and!.
    + apply counter_matches_step. exact Hc.
    + apply listing_ok_step. exact Hl.
    + apply counters_in_range_step; assumption.
Qed.

(** The registry of a reachable world is a reachable registry. *)
Lemma execute_registry (market : address) (admits : address -> address -> bool)
    (w : World) (t : Transaction) :
  w_registry (execute market admits w t) = w_registry w \/
  exists c o, w_registry (execute market admits w t)
              = registry_after market c o (w_registry w).
Proof.
  unfold execute, run_tx.
  destruct (resolve admits w t) as [o |]; [| left; reflexivity].
  right. exists {| sender := signer t; ids_created := next_id w |}, o.
  unfold registry_after.
  destruct (run_op market o _) as [[[] s] | e]; reflexivity.
Qed.

Lemma reachable_world_registry (market : address)
    (admits : address -> address -> bool) (w : World) :
  reachable market admits w -> reachable_registry market (w_registry w).
Proof.
  intros [ts ->]. unfold run_trace.
  assert (H0 : reachable_registry market (w_registry init_world))
    by apply reachable_init.
  revert H0. generalize init_world.
  induction ts as [| t ts IH]; intros w0 H0; cbn.
  - exact H0.
  - apply IH.
    destruct (execute_registry market admits w0 t) as [-> | (c & o & ->)].
    + exact H0.
    + apply reachable_step. exact H0.
Qed.

(** X1: in every registry reachable from the initial one, each entry of
    the listings table sits under the identifier it names, carries
    [listed = true] and has a strictly positive price: the flag is never
    stored as false, a listing ends by being removed. *)
Theorem reachable_listings_well_formed (market : address)
    (r : NftMarketplaceRegistry) (id : ID) (l : Listing) :
  reachable_registry market r ->
  listings r !! id = Some l ->
  nft_id l = id /\ listed l = true /\ 0 < price l.
Proof.
  intros Hreach Hl.
  destruct (reachable_registry_wf market r Hreach) as (_ & Hok & _).
  exact (Hok id l Hl).
Qed.

(** The listing of the spec's end-to-end run, read back from the registry
    that the mint and the listing produce. *)
Lemma reachable_listings_well_formed_witness :
  let r := registry_after Scenario.market (Scenario.as_signer Scenario.alice)
             (OpList (Scenario.plain_nft 0 Scenario.alice) 100)
             (registry_after Scenario.market
                {| sender := Scenario.alice; ids_created := 0%N |}
                (OpMint [] [] []) init_registry) in
  exists l,
    listings r !! 0%N = Some l /\
    nft_id l = 0%N /\ listed l = true /\ 0 < price l.
Proof.
  intros r.
  exists {| nft_id := 0%N; seller := Scenario.alice; price := 100; listed := true |}.
  assert (Hl : listings r !! 0%N
               = Some {| nft_id := 0%N; seller := Scenario.alice; price := 100;
                         listed := true |}) by (vm_compute; reflexivity).
  split; [exact Hl |].
  apply (reachable_listings_well_formed Scenario.market r 0%N _).
  - apply reachable_step, reachable_step, reachable_init.
  - exact Hl.
Defined.

(** X3: listing and delisting undo each other. When [list_nft] returns and
    the same signer then calls [delist_nft] on the NFT, the call returns,
    the NFT goes back to the signer unchanged, and the registry is exactly
    the one before the listing: same table, same four counters. (The
    active-listings counter is a [u64], so it is not negative.) *)
Theorem list_then_delist_restores_registry (market : address) (nft : NFT) (p : u64)
    (r : NftMarketplaceRegistry) (c c' : TxContext) (s1 : TxState) :
  0 <= total_nfts_listed r ->
  list_nft market nft p (start r c) = Ok (tt, s1) ->
  sender c' = sender c ->
  exists s2,
    delist_nft nft (start (registry s1) c') = Ok (tt, s2) /\
    registry s2 = r /\
    transfers s2 = [(ONft nft, sender c)] /\
    events s2 = [NFTDelisted (object_id nft) (sender c)].
Proof.
  intros Hnat Hlist Hsame.
  rewrite list_nft_eq in Hlist. tx_invert Hlist.
  rewrite delist_nft_eq. cbn. rewrite lookup_insert_eq. cbn.
  rewrite Hsame. rewrite bool_decide_eq_true_2 by reflexivity.
  destruct (Z.leb_spec 1 (total_nfts_listed r + 1)); [| lia].
  eexists. split; [reflexivity |]. cbn. split_and!; try reflexivity.
  destruct r as [m n s v t]. cbn in *. f_equal.
  - lia.
  - apply delete_insert_id. assumption.
Qed.

(** alice lists NFT 0 at 100 on the fresh registry and delists it. *)
Lemma list_then_delist_restores_registry_witness :
  exists s1 s2,
    list_nft Scenario.market (Scenario.plain_nft 0 Scenario.alice) 100
      (start init_registry (Scenario.as_signer Scenario.alice)) = Ok (tt, s1) /\
    delist_nft (Scenario.plain_nft 0 Scenario.alice)
      (start (registry s1) (Scenario.as_signer Scenario.alice)) = Ok (tt, s2) /\
    registry s2 = init_registry.
Proof.
  destruct (list_nft Scenario.market (Scenario.plain_nft 0 Scenario.alice) 100
              (start init_registry (Scenario.as_signer Scenario.alice)))
    as [[[] s1] | e] eqn:Hlist; [| vm_compute in Hlist; discriminate].
  destruct (list_then_delist_restores_registry Scenario.market
              (Scenario.plain_nft 0 Scenario.alice) 100 init_registry
              (Scenario.as_signer Scenario.alice) (Scenario.as_signer Scenario.alice) s1)
    as (s2 & Hdel & Hreg & _).
  - vm_compute. discriminate.
  - exact Hlist.
  - reflexivity.
  - exists s1, s2. split_and!; [reflexivity | exact Hdel | exact Hreg].
Defined.

(** X4: the active-listings counter never underflows in a reachable
    registry, and [table::remove] never aborts behind its
    [table::contains] guard. So [delist_nft] on a listed NFT, signed by
    the listing's seller, always returns, and a [buy_nft] with a payment
    that covers the price returns unless the sales counter or the volume
    would exceed 2^64 - 1. *)
Theorem listed_counter_never_underflows (market : address)
    (r : NftMarketplaceRegistry) (c : TxContext) (nft : NFT) (l : Listing) :
  reachable_registry market r ->
  listings r !! object_id nft = Some l ->
  (seller l = sender c ->
     exists s',
       delist_nft nft (start r c) = Ok (tt, s') /\
       listings (registry s') = delete (object_id nft) (listings r) /\
       total_nfts_listed (registry s') = total_nfts_listed r - 1 /\
       transfers s' = [(ONft nft, sender c)]) /\
  (forall payment,
     price l <= coin_value payment ->
     total_sales r + 1 <= MAX_U64 ->
     total_volume r + price l <= MAX_U64 ->
     exists s',
       buy_nft nft payment (start r c) = Ok (tt, s') /\
       listings (registry s') = delete (object_id nft) (listings r) /\
       total_nfts_listed (registry s') = total_nfts_listed r - 1).
Proof.
  intros Hreach Hl.
  destruct (reachable_registry_wf market r Hreach) as (Hc & _ & _).
  assert (Hpos : 1 <= total_nfts_listed r).
  { rewrite Hc. unfold table_length.
    assert (size (listings r) <> 0%nat) by (eapply map_size_ne_0_lookup_2; eauto).
    lia. }
  split.
  - intros Hsel. rewrite delist_nft_eq. cbn. rewrite Hl.
    rewrite bool_decide_eq_true_2 by assumption.
    rewrite (proj2 (Z.leb_le _ _) Hpos).
    eexists. split; [reflexivity |]. cbn. split_and!; reflexivity.
  - intros payment Hpay Hsales Hvol. rewrite buy_nft_eq. cbn. rewrite Hl.
    rewrite (proj2 (Z.leb_le _ _) Hpay), (proj2 (Z.leb_le _ _) Hsales),
      (proj2 (Z.leb_le _ _) Hvol), (proj2 (Z.leb_le _ _) Hpos).
    eexists. split; [reflexivity |]. cbn. split; reflexivity.
Qed.

(** After the mint and the listing at 100, alice delists. *)
Lemma listed_counter_never_underflows_witness :
  let r := registry_after Scenario.market (Scenario.as_signer Scenario.alice)
             (OpList (Scenario.plain_nft 0 Scenario.alice) 100)
             (registry_after Scenario.market
                {| sender := Scenario.alice; ids_created := 0%N |}
                (OpMint [] [] []) init_registry) in
  exists s',
    delist_nft (Scenario.plain_nft 0 Scenario.alice)
      (start r (Scenario.as_signer Scenario.alice)) = Ok (tt, s') /\
    total_nfts_listed (registry s') = 0.
Proof.
  intros r.
  destruct (listed_counter_never_underflows Scenario.market r
              (Scenario.as_signer Scenario.alice) (Scenario.plain_nft 0 Scenario.alice)
              {| nft_id := 0%N; seller := Scenario.alice; price := 100; listed := true |})
    as [Hdelist _].
  - apply reachable_step, reachable_step, reachable_init.
  - vm_compute. reflexivity.
  - destruct Hdelist as (s' & Hrun & _ & Hn & _); [reflexivity |].
    exists s'. split; [exact Hrun |]. rewrite Hn. vm_compute. reflexivity.
Defined.

(** X5: a purchase really hands over the right to sell. When [buy_nft]
    returns in a reachable registry, the buyer can list the NFT it
    received at any positive price: [list_nft] returns and stores a
    listing whose seller is the buyer; no counter can be in the way. *)
Theorem buyer_can_relist (market : address) (r : NftMarketplaceRegistry)
    (c c' : TxContext) (nft : NFT) (payment : Coin) (s1 : TxState) (p : u64) :
  reachable_registry market r ->
  buy_nft nft payment (start r c) = Ok (tt, s1) ->
  sender c' = sender c ->
  0 < p ->
  exists sold s2,
    transfers s1 = [(OCoin payment, sold); (ONft (set_owner (sender c) nft), sender c)] /\
    list_nft market (set_owner (sender c) nft) p (start (registry s1) c') = Ok (tt, s2) /\
    listings (registry s2) !! object_id nft
      = Some {| nft_id := object_id nft; seller := sender c; price := p;
                listed := true |} /\
    total_nfts_listed (registry s2) = total_nfts_listed r.
Proof.
  intros Hreach Hbuy Hsame Hp.
  destruct (reachable_registry_wf market r Hreach) as (Hc & _ & Hr).
  destruct Hr as (_ & Hlisted & _).
  rewrite buy_nft_eq in Hbuy. cbn in Hbuy.
  destruct (listings r !! object_id nft) as [l |] eqn:Hl; [| discriminate].
  repeat match type of Hbuy with
         | (if ?b then _ else _) = _ => destruct b eqn:?; [| discriminate]
         end.
  injection Hbuy as <-.
  exists (seller l). rewrite list_nft_eq. cbn.
  destruct (Z.ltb_spec 0 p); [| lia].
  rewrite Hsame. rewrite bool_decide_eq_true_2 by reflexivity.
  change (uid nft) with (object_id nft).
  rewrite lookup_delete_eq.
  erewrite table_length_delete_present by eassumption.
  destruct (Z.leb_spec (table_length (listings r) - 1 + 1) MAX_U64);
    [| rewrite Hc in Hlisted; lia].
  destruct (Z.leb_spec (total_nfts_listed r - 1 + 1) MAX_U64); [| lia].
  eexists. split; [reflexivity |]. split; [reflexivity |]. cbn.
  rewrite lookup_insert_eq. split; [reflexivity | lia].
Qed.

(** bob buys alice's listing of the end-to-end run and lists the NFT at 7. *)
Lemma buyer_can_relist_witness :
  let r := registry_after Scenario.market (Scenario.as_signer Scenario.alice)
             (OpList (Scenario.plain_nft 0 Scenario.alice) 100)
             (registry_after Scenario.market
                {| sender := Scenario.alice; ids_created := 0%N |}
                (OpMint [] [] []) init_registry) in
  exists s1 s2,
    buy_nft (Scenario.plain_nft 0 Scenario.alice) (Scenario.coin 150)
      (start r (Scenario.as_signer Scenario.bob)) = Ok (tt, s1) /\
    list_nft Scenario.market (set_owner Scenario.bob (Scenario.plain_nft 0 Scenario.alice))
      7 (start (registry s1) (Scenario.as_signer Scenario.bob)) = Ok (tt, s2) /\
    listings (registry s2) !! 0%N
      = Some {| nft_id := 0%N; seller := Scenario.bob; price := 7; listed := true |}.
Proof.
  intros r.
  destruct (buy_nft (Scenario.plain_nft 0 Scenario.alice) (Scenario.coin 150)
              (start r (Scenario.as_signer Scenario.bob)))
    as [[[] s1] | e] eqn:Hbuy; [| vm_compute in Hbuy; discriminate].
  destruct (buyer_can_relist Scenario.market r (Scenario.as_signer Scenario.bob)
              (Scenario.as_signer Scenario.bob) (Scenario.plain_nft 0 Scenario.alice)
              (Scenario.coin 150) s1 7)
    as (sold & s2 & _ & Hlist & Hget & _).
  - apply reachable_step, reachable_step, reachable_init.
  - exact Hbuy.
  - reflexivity.
  - vm_compute. reflexivity.
  - exists s1, s2. split_and!; [reflexivity | exact Hlist | exact Hget].
Defined.

(** ** World invariants *)

(** The world a committed transaction leaves, call by call, with the
    tests the call passed. *)
Lemma committed_world (market : address) (admits : address -> address -> bool)
    (w w' : World) (t : Transaction) :
  store_ok w ->
  run_tx market admits w t = Committed w' ->
  match call t with
  | CallMint n d u =>
      internal_check_utf8 n = true /\ internal_check_utf8 d = true /\
      forallb is_valid_char u = true /\
      nfts w !! next_id w = None /\
      w' = {| w_registry :=
                set_total_nfts_minted (total_nfts_minted (w_registry w) + 1) (w_registry w);
              nfts := <[next_id w :=
                          ({| uid := next_id w; name := {| bytes := n |};
                              description := {| bytes := d |};
                              url := {| inner_url := {| ascii_bytes := u |} |};
                              creator := signer t; owner := signer t |}, signer t)]> (nfts w);
              event_log := event_log w ++
                [NFTMinted (next_id w) (signer t) (signer t) {| bytes := n |}
                   {| bytes := u |}];
              payments := payments w;
              next_id := N.succ (next_id w) |}
  | CallList id p =>
      exists n h, nfts w !! id = Some (n, h) /\
        w' = {| w_registry :=
                  {| total_nfts_minted := total_nfts_minted (w_registry w);
                     total_nfts_listed := total_nfts_listed (w_registry w) + 1;
                     total_sales := total_sales (w_registry w);
                     total_volume := total_volume (w_registry w);
                     listings :=
                       <[id := {| nft_id := id; seller := signer t; price := p;
                                  listed := true |}]> (listings (w_registry w)) |};
                nfts := <[id := (n, market)]> (nfts w);
                event_log := event_log w ++ [NFTListed id (signer t) p];
                payments := payments w;
                next_id := next_id w |}
  | CallDelist id =>
      exists n h, nfts w !! id = Some (n, h) /\
        w' = {| w_registry :=
                  {| total_nfts_minted := total_nfts_minted (w_registry w);
                     total_nfts_listed := total_nfts_listed (w_registry w) - 1;
                     total_sales := total_sales (w_registry w);
                     total_volume := total_volume (w_registry w);
                     listings := delete id (listings (w_registry w)) |};
                nfts := <[id := (n, signer t)]> (nfts w);
                event_log := event_log w ++ [NFTDelisted id (signer t)];
                payments := payments w;
                next_id := next_id w |}
  | CallBuy id pay =>
      exists n h l, nfts w !! id = Some (n, h) /\
        listings (w_registry w) !! id = Some l /\
        price l <= coin_value pay /\
        w' = {| w_registry :=
                  {| total_nfts_minted := total_nfts_minted (w_registry w);
                     total_nfts_listed := total_nfts_listed (w_registry w) - 1;
                     total_sales := total_sales (w_registry w) + 1;
                     total_volume := total_volume (w_registry w) + price l;
                     listings := delete id (listings (w_registry w)) |};
                nfts := <[id := (set_owner (signer t) n, signer t)]> (nfts w);
                event_log := event_log w ++
                  [NFTSold id (seller l) (signer t) (price l);
                   OwnerUpdated id (owner n) (signer t)];
                payments := payments w ++ [(pay, seller l)];
                next_id := next_id w |}
  | CallUpdateOwner id a =>
      exists n h, nfts w !! id = Some (n, h) /\
        w' = {| w_registry := w_registry w;
                nfts := <[id := (set_owner a n, a)]> (nfts w);
                event_log := event_log w ++ [OwnerUpdated id (owner n) a];
                payments := payments w;
                next_id := next_id w |}
  | CallTransfer id a =>
      exists n h, nfts w !! id = Some (n, h) /\
        w' = {| w_registry := w_registry w;
                nfts := <[id := (n, a)]> (nfts w);
                event_log := event_log w;
                payments := payments w;
                next_id := next_id w |}
  end.
Proof.
  intros Hok Hrun.
  destruct (run_tx_committed _ _ _ _ _ Hrun) as (o & s & Hres & Hop & ->).
  destruct t as [who [n d u | id p | id | id pay | id a | id a]]; cbn in *;
    [ injection Hres as <-
    | destruct (take_nft admits w who id) as [nft |] eqn:Htake; [| discriminate];
      cbn in Hres; injection Hres as <-;
      destruct (take_nft_Some _ _ _ _ _ Htake) as (h & Hn & Hadm);
      destruct (Hok _ _ _ Hn) as [Hid _] .. ];
    cbn [run_op] in Hop.
  - rewrite mint_nft_eq in Hop. tx_invert Hop.
    split_and!; try reflexivity.
    + destruct (nfts w !! next_id w) as [[n0 h0] |] eqn:Hget; [| reflexivity].
      destruct (Hok _ _ _ Hget) as [_ Hlt]. lia.
    + unfold commit. cbn. rewrite app_nil_r. reflexivity.
  - rewrite list_nft_eq in Hop. tx_invert Hop.
    exists nft, h. split; [exact Hn |].
    unfold commit, apply_transfer, object_id in *. cbn.
    rewrite Hid, insert_delete_eq, app_nil_r. reflexivity.
  - rewrite delist_nft_eq in Hop. tx_invert Hop.
    exists nft, h. split; [exact Hn |].
    unfold commit, apply_transfer, object_id in *. cbn.
    rewrite Hid, insert_delete_eq, app_nil_r. reflexivity.
  - rewrite buy_nft_eq in Hop. tx_invert Hop.
    unfold object_id in *. rewrite Hid in *.
    eexists nft, h, _.
    split_and!; [exact Hn | eassumption | apply Z.leb_le; eassumption |].
    unfold commit, apply_transfer, object_id. cbn.
    rewrite Hid, insert_delete_eq. reflexivity.
  - rewrite update_owner_eq in Hop. tx_invert Hop.
    exists nft, h. split; [exact Hn |].
    unfold commit, apply_transfer, object_id in *. cbn.
    rewrite Hid, insert_delete_eq, app_nil_r. reflexivity.
  - cbn in Hop. injection Hop as <-.
    exists nft, h. split; [exact Hn |].
    unfold commit, apply_transfer, object_id in *. cbn.
    rewrite Hid, insert_delete_eq, !app_nil_r. reflexivity.
Qed.

(** Induction over the worlds a trace goes through. *)
Lemma reachable_invariant (market : address) (admits : address -> address -> bool)
    (P : World -> Prop) :
  P init_world ->
  (forall w t w',
     reachable market admits w -> P w ->
     run_tx market admits w t = Committed w' -> P w') ->
  forall w, reachable market admits w -> P w.
Proof.
  intros H0 Hstep w [ts ->].
  induction ts as [| t ts IH] using rev_ind.
  - exact H0.
  - unfold run_trace in *. rewrite foldl_snoc.
    assert (Hr : reachable market admits (foldl (execute market admits) init_world ts))
      by (exists ts; reflexivity).
    unfold execute at 1.
    destruct (run_tx market admits _ t) as [w' | e |] eqn:Hrun; try exact IH.
    exact (Hstep _ _ _ Hr IH Hrun).
Qed.

Lemma reachable_execute (market : address) (admits : address -> address -> bool)
    (w : World) (t : Transaction) :
  reachable market admits w -> reachable market admits (execute market admits w t).
Proof.
  intros [ts ->]. exists (ts ++ [t]). unfold run_trace.
  rewrite foldl_snoc. reflexivity.
Qed.

#[local] Arguments minted_count : simpl never.
#[local] Arguments sales_in : simpl never.
#[local] Arguments volume_of : simpl never.
#[local] Arguments paid_total : simpl never.
#[local] Arguments replay_listings : simpl never.
#[local] Arguments replay_owners : simpl never.

(** How the readings of a log extend when events are appended; the part
    for the appended events is left in a form that computes. *)
Lemma minted_count_app (l k : list Event) :
  minted_count (l ++ k) = (minted_count l + length (List.filter is_minted k))%nat.
Proof. unfold minted_count. rewrite List.filter_app, length_app. reflexivity. Qed.

Lemma sales_in_app (l k : list Event) : sales_in (l ++ k) = sales_in l ++ omap sale_of k.
Proof. unfold sales_in. apply omap_app. Qed.

Lemma volume_of_app (l k : list (address * u64)) :
  volume_of (l ++ k) = volume_of l + foldr (fun sp acc => sp.2 + acc) 0 k.
Proof.
  unfold volume_of. induction l as [| x l IH]; cbn; [reflexivity | rewrite IH; lia].
Qed.

Lemma paid_total_app (l k : list (Coin * address)) :
  paid_total (l ++ k) = paid_total l + foldr (fun pa acc => coin_value pa.1 + acc) 0 k.
Proof.
  unfold paid_total. induction l as [| x l IH]; cbn; [reflexivity | rewrite IH; lia].
Qed.

Lemma replay_listings_app (l k : list Event) :
  replay_listings (l ++ k) = foldl replay_listing (replay_listings l) k.
Proof. unfold replay_listings. apply foldl_app. Qed.

Lemma replay_owners_app (l k : list Event) :
  replay_owners (l ++ k) = foldl replay_owner (replay_owners l) k.
Proof. unfold replay_owners. apply foldl_app. Qed.

(** Sales counter, volume, payments and sale events agree. *)
Lemma reachable_sales (market : address) (admits : address -> address -> bool)
    (w : World) :
  reachable market admits w ->
  total_sales (w_registry w) = Z.of_nat (length (sales_in (event_log w))) /\
  total_volume (w_registry w) = volume_of (sales_in (event_log w)) /\
  Forall2 settles (payments w) (sales_in (event_log w)).
Proof.
  apply (reachable_invariant market admits
           (fun w =>
              total_sales (w_registry w) = Z.of_nat (length (sales_in (event_log w))) /\
              total_volume (w_registry w) = volume_of (sales_in (event_log w)) /\
              Forall2 settles (payments w) (sales_in (event_log w)))).
  - split_and!; [reflexivity | reflexivity | constructor].
  - intros w0 t w' Hreach (Hs & Hv & Hp) Hrun.
    pose proof (committed_world _ _ _ _ _ (reachable_store_ok _ _ _ Hreach) Hrun) as Hw.
    destruct (call t) as [n d u | id p | id | id pay | id a | id a].
    + destruct Hw as (_ & _ & _ & _ & ->). cbn.
      rewrite sales_in_app. cbn. rewrite app_nil_r. split_and!; assumption.
    + destruct Hw as (n & h & _ & ->). cbn.
      rewrite sales_in_app. cbn. rewrite app_nil_r. split_and!; assumption.
    + destruct Hw as (n & h & _ & ->). cbn.
      rewrite sales_in_app. cbn. rewrite app_nil_r. split_and!; assumption.
    + destruct Hw as (n & h & l & _ & _ & Hpay & ->). cbn.
      rewrite sales_in_app. cbn. rewrite length_app, volume_of_app. cbn.
      split_and!; [lia | lia |].
      apply Forall2_app; [exact Hp |].
      constructor; [| constructor]. split; [reflexivity | exact Hpay].
    + destruct Hw as (n & h & _ & ->). cbn.
      rewrite sales_in_app. cbn. rewrite app_nil_r. split_and!; assumption.
    + destruct Hw as (n & h & _ & ->). cbn. split_and!; assumption.
Qed.

(** ** Accounting *)

(** X6: in every reachable world the minted counter equals the number of
    NFT objects that exist, which equals the number of [NFTMinted] events
    in the log: each committed mint creates exactly one NFT under an
    identifier not in use, and no call creates or destroys an NFT
    otherwise. *)
Theorem minted_counter_counts_nfts (market : address)
    (admits : address -> address -> bool) (w : World) :
  reachable market admits w ->
  total_nfts_minted (w_registry w) = Z.of_nat (size (nfts w)) /\
  size (nfts w) = minted_count (event_log w).
Proof.
  apply (reachable_invariant market admits
           (fun w => total_nfts_minted (w_registry w) = Z.of_nat (size (nfts w)) /\
                     size (nfts w) = minted_count (event_log w))).
  - split; reflexivity.
  - intros w0 t w' Hreach [Hm Hc] Hrun.
    pose proof (committed_world _ _ _ _ _ (reachable_store_ok _ _ _ Hreach) Hrun) as Hw.
    destruct (call t) as [n d u | id p | id | id pay | id a | id a].
    + destruct Hw as (_ & _ & _ & Hfresh & ->). cbn.
      rewrite map_size_insert_None by assumption.
      rewrite minted_count_app. cbn. split; lia.
    + destruct Hw as (n & h & Hn & ->). cbn.
      rewrite map_size_insert_Some by eauto.
      rewrite minted_count_app. cbn. split; lia.
    + destruct Hw as (n & h & Hn & ->). cbn.
      rewrite map_size_insert_Some by eauto.
      rewrite minted_count_app. cbn. split; lia.
    + destruct Hw as (n & h & l & Hn & _ & _ & ->). cbn.
      rewrite map_size_insert_Some by eauto.
      rewrite minted_count_app. cbn. split; lia.
    + destruct Hw as (n & h & Hn & ->). cbn.
      rewrite map_size_insert_Some by eauto.
      rewrite minted_count_app. cbn. split; lia.
    + destruct Hw as (n & h & Hn & ->). cbn.
      rewrite map_size_insert_Some by eauto. split; assumption.
Qed.

(** Two mints, two listings and one sale later there are two NFTs. *)
Lemma minted_counter_counts_nfts_witness :
  let w := Scenario.run Scenario.two_sellers in
  total_nfts_minted (w_registry w) = 2 /\
  size (nfts w) = 2%nat /\
  minted_count (event_log w) = 2%nat.
Proof.
  intros w.
  destruct (minted_counter_counts_nfts Scenario.market sui_owned w) as [Hm Hc].
  - exists Scenario.two_sellers. reflexivity.
  - assert (Hsize : size (nfts w) = 2%nat) by (vm_compute; reflexivity).
    rewrite Hsize in Hm, Hc. split_and!; [exact Hm | reflexivity | symmetry; exact Hc].
Defined.

(** X7: in every reachable world the sales counter equals the number of
    [NFTSold] events in the log and the cumulative volume equals the sum
    of the prices those events carry: the volume counts listing prices,
    never payments. *)
Theorem sales_counters_match_log (market : address)
    (admits : address -> address -> bool) (w : World) :
  reachable market admits w ->
  total_sales (w_registry w) = Z.of_nat (length (sales_in (event_log w))) /\
  total_volume (w_registry w) = volume_of (sales_in (event_log w)).
Proof.
  intros Hreach.
  destruct (reachable_sales market admits w Hreach) as (Hs & Hv & _).
  split; assumption.
Qed.

(** After the sale at 2^63 of the two-sellers run. *)
Lemma sales_counters_match_log_witness :
  let w := Scenario.run Scenario.two_sellers in
  sales_in (event_log w) = [(Scenario.alice, Scenario.half_range)] /\
  total_sales (w_registry w) = 1 /\
  total_volume (w_registry w) = Scenario.half_range.
Proof.
  intros w.
  assert (Hlog : sales_in (event_log w) = [(Scenario.alice, Scenario.half_range)])
    by (vm_compute; reflexivity).
  destruct (sales_counters_match_log Scenario.market sui_owned w) as [Hs Hv].
  - exists Scenario.two_sellers. reflexivity.
  - rewrite Hlog in Hs, Hv. split_and!; [reflexivity | exact Hs | exact Hv].
Defined.

Lemma settles_totals (ps : list (Coin * address)) (ss : list (address * u64)) :
  Forall2 settles ps ss -> volume_of ss <= paid_total ps.
Proof.
  unfold volume_of, paid_total.
  induction 1 as [| pa sp ps ss [_ Hle] _ IH]; cbn; lia.
Qed.

(** X8: sellers are paid for every sale. In every reachable world the
    coins paid out answer the [NFTSold] events one for one and in order:
    each went to the seller the event names and is worth at least the
    price the event names. Hence what sellers received in total is at
    least the cumulative volume. *)
Theorem payments_settle_sales (market : address)
    (admits : address -> address -> bool) (w : World) :
  reachable market admits w ->
  Forall2 settles (payments w) (sales_in (event_log w)) /\
  total_volume (w_registry w) <= paid_total (payments w).
Proof.
  intros Hreach.
  destruct (reachable_sales market admits w Hreach) as (_ & Hv & Hp).
  split; [exact Hp |]. rewrite Hv. apply settles_totals. exact Hp.
Qed.

(** In the two-sellers run alice was paid the coin of 2^63. *)
Lemma payments_settle_sales_witness :
  let w := Scenario.run Scenario.two_sellers in
  payments w = [(Scenario.coin Scenario.half_range, Scenario.alice)] /\
  Forall2 settles (payments w) (sales_in (event_log w)) /\
  total_volume (w_registry w) <= paid_total (payments w).
Proof.
  intros w. split; [vm_compute; reflexivity |].
  apply (payments_settle_sales Scenario.market sui_owned w).
  exists Scenario.two_sellers. reflexivity.
Defined.

(** ** NFTs over time *)

Lemma same_asset_refl (n : NFT) : same_asset n n.
Proof. unfold same_asset. split_and!; reflexivity. Qed.

Lemma same_asset_set_owner (n : NFT) (a : address) : same_asset n (set_owner a n).
Proof. unfold same_asset. split_and!; reflexivity. Qed.

Lemma same_asset_trans (n1 n2 n3 : NFT) :
  same_asset n1 n2 -> same_asset n2 n3 -> same_asset n1 n3.
Proof. unfold same_asset. intros (? & ? & ? & ? & ?) (? & ? & ? & ? & ?). split_and!; congruence. Qed.

Lemma nft_survives_execute (market : address) (admits : address -> address -> bool)
    (w : World) (t : Transaction) (id : ID) (n : NFT) (h : address) :
  store_ok w ->
  nfts w !! id = Some (n, h) ->
  exists n' h', nfts (execute market admits w t) !! id = Some (n', h') /\ same_asset n n'.
Proof.
  intros Hok Hget. unfold execute.
  destruct (run_tx market admits w t) as [w' | e |] eqn:Hrun;
    try (exists n, h; split; [exact Hget | apply same_asset_refl]).
  pose proof (committed_world _ _ _ _ _ Hok Hrun) as Hw.
  destruct (call t) as [nm d u | id' p | id' | id' pay | id' a | id' a].
  - destruct Hw as (_ & _ & _ & Hfresh & ->). cbn.
    exists n, h. rewrite lookup_insert_ne by congruence.
    split; [exact Hget | apply same_asset_refl].
  - destruct Hw as (n0 & h0 & Hn & ->). cbn.
    destruct (decide (id' = id)) as [-> | Hne].
    + rewrite Hget in Hn. injection Hn as <- <-. rewrite lookup_insert_eq.
      eexists _, _. split; [reflexivity | apply same_asset_refl].
    + rewrite lookup_insert_ne by assumption.
      exists n, h. split; [exact Hget | apply same_asset_refl].
  - destruct Hw as (n0 & h0 & Hn & ->). cbn.
    destruct (decide (id' = id)) as [-> | Hne].
    + rewrite Hget in Hn. injection Hn as <- <-. rewrite lookup_insert_eq.
      eexists _, _. split; [reflexivity | apply same_asset_refl].
    + rewrite lookup_insert_ne by assumption.
      exists n, h. split; [exact Hget | apply same_asset_refl].
  - destruct Hw as (n0 & h0 & l & Hn & _ & _ & ->). cbn.
    destruct (decide (id' = id)) as [-> | Hne].
    + rewrite Hget in Hn. injection Hn as <- <-. rewrite lookup_insert_eq.
      eexists _, _. split; [reflexivity | apply same_asset_set_owner].
    + rewrite lookup_insert_ne by assumption.
      exists n, h. split; [exact Hget | apply same_asset_refl].
  - destruct Hw as (n0 & h0 & Hn & ->). cbn.
    destruct (decide (id' = id)) as [-> | Hne].
    + rewrite Hget in Hn. injection Hn as <- <-. rewrite lookup_insert_eq.
      eexists _, _. split; [reflexivity | apply same_asset_set_owner].
    + rewrite lookup_insert_ne by assumption.
      exists n, h. split; [exact Hget | apply same_asset_refl].
  - destruct Hw as (n0 & h0 & Hn & ->). cbn.
    destruct (decide (id' = id)) as [-> | Hne].
    + rewrite Hget in Hn. injection Hn as <- <-. rewrite lookup_insert_eq.
      eexists _, _. split; [reflexivity | apply same_asset_refl].
    + rewrite lookup_insert_ne by assumption.
      exists n, h. split; [exact Hget | apply same_asset_refl].
Qed.

(** X9: an NFT is for ever. Once an NFT is in the store of a reachable
    world it is there after any further transactions, under the same
    identifier and with the same name, description, URL and creator: no
    entry function destroys an NFT, and the owner field is the only one a
    call ever rewrites. *)
Theorem nft_is_permanent (market : address) (admits : address -> address -> bool)
    (w : World) (ts : list Transaction) (id : ID) (n : NFT) (h : address) :
  reachable market admits w ->
  nfts w !! id = Some (n, h) ->
  exists n' h',
    nfts (run_trace market admits w ts) !! id = Some (n', h') /\
    uid n' = uid n /\ name n' = name n /\ description n' = description n /\
    url n' = url n /\ creator n' = creator n.
Proof.
  intros Hreach Hget. change (exists n' h',
    nfts (run_trace market admits w ts) !! id = Some (n', h') /\ same_asset n n').
  revert w n h Hreach Hget.
  induction ts as [| t ts IH]; intros w n h Hreach Hget; cbn.
  - exists n, h. split; [exact Hget | apply same_asset_refl].
  - destruct (nft_survives_execute market admits w t id n h
                (reachable_store_ok _ _ _ Hreach) Hget) as (n1 & h1 & Hget1 & Hsame1).
    destruct (IH _ n1 h1 (reachable_execute _ _ _ t Hreach) Hget1)
      as (n2 & h2 & Hget2 & Hsame2).
    exists n2, h2. split; [exact Hget2 | eapply same_asset_trans; eassumption].
Qed.

(** alice's NFT 0 after it was listed, bought by the marketplace address
    and followed by bob's mint and listing: creator still alice. *)
Lemma nft_is_permanent_witness :
  let w := Scenario.run [Scenario.tx Scenario.alice (CallMint [] [] [])] in
  exists n' h',
    nfts (run_trace Scenario.market sui_owned w (tl Scenario.two_sellers)) !! 0%N
      = Some (n', h') /\
    creator n' = Scenario.alice /\
    owner n' = Scenario.market.
Proof.
  intros w.
  destruct (nft_is_permanent Scenario.market sui_owned w (tl Scenario.two_sellers)
              0%N (Scenario.plain_nft 0 Scenario.alice) Scenario.alice)
    as (n' & h' & Hget & _ & _ & _ & _ & Hcreator).
  - exists [Scenario.tx Scenario.alice (CallMint [] [] [])]. reflexivity.
  - vm_compute. reflexivity.
  - exists n', h'. split_and!; [exact Hget | exact Hcreator |].
    assert (Hget' : nfts (run_trace Scenario.market sui_owned w (tl Scenario.two_sellers))
                      !! 0%N
                    = Some (set_owner Scenario.market (Scenario.plain_nft 0 Scenario.alice),
                            Scenario.market)) by (vm_compute; reflexivity).
    rewrite Hget' in Hget. injection Hget as <- _. reflexivity.
Defined.

(** A transaction on an NFT held by the marketplace address is rejected
    unless that address signs it. *)
Lemma held_by_market_rejects (market : address) (admits : address -> address -> bool)
    (w : World) (t : Transaction) (id : ID) (n : NFT) :
  holder_only admits ->
  nfts w !! id = Some (n, market) ->
  used_object (call t) = Some id ->
  signer t <> market ->
  run_tx market admits w t = Rejected.
Proof.
  intros Hstrict Hget Hused Hother.
  assert (Htake : take_nft admits w (signer t) id = None).
  { unfold take_nft. rewrite Hget.
    destruct (admits (signer t) market) eqn:Ha; [| reflexivity].
    exfalso. apply Hother. exact (Hstrict _ _ Ha). }
  unfold run_tx, resolve.
  destruct (call t) as [nm d u | id' p | id' | id' pay | id' a | id' a];
    cbn in Hused; try discriminate; injection Hused as ->;
    rewrite Htake; reflexivity.
Qed.

(** A transaction that leaves the NFT [id] alone leaves its record, its
    holder and its listing as they are. *)
Lemma untouched_execute (market : address) (admits : address -> address -> bool)
    (w : World) (t : Transaction) (id : ID) :
  store_ok w ->
  is_Some (nfts w !! id) ->
  used_object (call t) <> Some id ->
  nfts (execute market admits w t) !! id = nfts w !! id /\
  listings (w_registry (execute market admits w t)) !! id
    = listings (w_registry w) !! id.
Proof.
  intros Hok [[n h] Hget] Hother. unfold execute.
  destruct (run_tx market admits w t) as [w' | e |] eqn:Hrun; [| split; reflexivity ..].
  pose proof (committed_store _ _ _ _ _ Hok Hrun) as Hst.
  destruct (call t) as [nm d u | id' p | id' | id' pay | id' a | id' a];
    cbn in Hother;
    try (assert (Hne : id' <> id) by (intros ->; apply Hother; reflexivity)).
  - destruct Hst as (Hnfts & _ & Hlist). rewrite Hnfts, Hlist.
    destruct (Hok _ _ _ Hget) as [_ Hlt].
    rewrite lookup_insert_ne by lia. split; reflexivity.
  - destruct Hst as (n' & h' & _ & _ & _ & Hnfts & _ & Hlist).
    rewrite Hnfts, Hlist. rewrite !lookup_insert_ne by assumption. split; reflexivity.
  - destruct Hst as (n' & h' & l' & _ & _ & _ & _ & Hnfts & _ & Hlist).
    rewrite Hnfts, Hlist.
    rewrite lookup_insert_ne, lookup_delete_ne by assumption. split; reflexivity.
  - destruct Hst as (n' & h' & l' & _ & _ & Hnfts & _ & Hlist & _).
    rewrite Hnfts, Hlist.
    rewrite lookup_insert_ne, lookup_delete_ne by assumption. split; reflexivity.
  - destruct Hst as (n' & h' & _ & _ & _ & Hnfts & _ & Hlist).
    rewrite Hnfts, Hlist. rewrite lookup_insert_ne by assumption. split; reflexivity.
  - destruct Hst as (n' & h' & _ & _ & Hnfts & _ & Hlist).
    rewrite Hnfts, Hlist. rewrite lookup_insert_ne by assumption. split; reflexivity.
Qed.

(** X10: a listed NFT waits for the marketplace address. Assume the
    runtime lets only the holder pass an object (Sui's rule). A committed
    [list_nft] leaves the NFT with the marketplace address. From then on,
    through any transactions among which none signed by that address uses
    the NFT, the NFT stays with that address with its record as listed,
    the listing stays in the table as it was stored, and every
    transaction on the NFT by another signer (the seller's own
    [delist_nft], a [buy_nft], an [update_owner], a plain transfer) is
    rejected before the module runs. *)
Theorem listed_nft_waits_for_marketplace (market : address)
    (admits : address -> address -> bool) (w w1 : World) (who : address)
    (id : ID) (p : u64) (ts : list Transaction) :
  holder_only admits ->
  reachable market admits w ->
  run_tx market admits w {| signer := who; call := CallList id p |} = Committed w1 ->
  Forall (fun t => signer t = market -> used_object (call t) <> Some id) ts ->
  let w2 := run_trace market admits w1 ts in
  (exists n, nfts w1 !! id = Some (n, market) /\ owner n = who /\
             nfts w2 !! id = Some (n, market)) /\
  listings (w_registry w2) !! id
    = Some {| nft_id := id; seller := who; price := p; listed := true |} /\
  (forall t, used_object (call t) = Some id -> signer t <> market ->
             run_tx market admits w2 t = Rejected).
Proof.
  intros Hstrict Hreach Hrun Hts w2.
  pose proof (reachable_store_ok _ _ _ Hreach) as Hok.
  destruct (committed_store _ _ _ _ _ Hok Hrun)
    as (n & h & Hn & _ & Hown & Hnfts & _ & Hlist).
  cbn in Hown.
  assert (Hok1 : store_ok w1).
  { pose proof (store_ok_execute market admits w
                  {| signer := who; call := CallList id p |} Hok) as H.
    unfold execute in H. rewrite Hrun in H. exact H. }
  assert (Hget1 : nfts w1 !! id = Some (n, market)).
  { rewrite Hnfts. apply lookup_insert_eq. }
  assert (Hl1 : listings (w_registry w1) !! id
                = Some {| nft_id := id; seller := who; price := p; listed := true |}).
  { rewrite Hlist. apply lookup_insert_eq. }
  assert (Hkept : nfts w2 !! id = Some (n, market) /\
                  listings (w_registry w2) !! id
                  = Some {| nft_id := id; seller := who; price := p; listed := true |}).
  { subst w2. clear Hrun Hnfts Hlist Hn Hok Hreach.
    revert w1 Hok1 Hget1 Hl1.
    induction Hts as [| t ts Ht _ IH]; intros w1 Hok1 Hget1 Hl1; cbn.
    - split; assumption.
    - destruct (decide (used_object (call t) = Some id)) as [Hused | Hother].
      + assert (Hm : signer t <> market) by (intros Hm; exact (Ht Hm Hused)).
        assert (He : execute market admits w1 t = w1).
        { unfold execute.
          rewrite (held_by_market_rejects market admits w1 t id n
                     Hstrict Hget1 Hused Hm). reflexivity. }
        rewrite He. apply IH; assumption.
      + destruct (untouched_execute market admits w1 t id Hok1
                    ltac:(rewrite Hget1; eauto) Hother) as [Hn' Hl'].
        apply IH.
        * apply store_ok_execute. exact Hok1.
        * rewrite Hn'. exact Hget1.
        * rewrite Hl'. exact Hl1. }
  destruct Hkept as [Hget2 Hl2].
  split_and!.
  - exists n. split_and!; assumption.
  - exact Hl2.
  - intros t Hused Hother.
    exact (held_by_market_rejects market admits w2 t id n Hstrict Hget2 Hused Hother).
Qed.

(** alice lists NFT 0 at 100. bob mints, alice tries to delist and carol
    tries to buy: the NFT is still with the marketplace address, the
    listing is still there, and alice's delisting is rejected. *)
Lemma listed_nft_waits_for_marketplace_witness :
  let w := Scenario.run [Scenario.tx Scenario.alice (CallMint [] [] [])] in
  let others := [Scenario.tx Scenario.bob (CallMint [] [] []);
                 Scenario.tx Scenario.alice (CallDelist 0%N);
                 Scenario.tx Scenario.carol (CallBuy 0%N (Scenario.coin 100))] in
  exists w1,
    Scenario.submit w (Scenario.tx Scenario.alice (CallList 0%N 100)) = Committed w1 /\
    let w2 := run_trace Scenario.market sui_owned w1 others in
    listings (w_registry w2) !! 0%N
      = Some {| nft_id := 0%N; seller := Scenario.alice; price := 100; listed := true |} /\
    Scenario.submit w2 (Scenario.tx Scenario.alice (CallDelist 0%N)) = Rejected.
Proof.
  intros w others.
  pose (w1 := Scenario.run Scenario.alice_lists).
  assert (Hrun : Scenario.submit w (Scenario.tx Scenario.alice (CallList 0%N 100))
                 = Committed w1) by (vm_compute; reflexivity).
  exists w1. split; [exact Hrun |].
  destruct (listed_nft_waits_for_marketplace Scenario.market sui_owned w w1
              Scenario.alice 0%N 100 others) as (_ & Hl & Hrej).
  - exact sui_owned_holder_only.
  - eexists. reflexivity.
  - exact Hrun.
  - repeat constructor; vm_compute; discriminate.
  - split; [exact Hl |].
    apply Hrej; [reflexivity | vm_compute; discriminate].
Defined.

(** ** What the events are enough for *)

(** X11: the event log determines the table of listings. In every
    reachable world, replaying the log (an [NFTListed] event stores the
    listing it describes, an [NFTDelisted] or [NFTSold] event removes the
    NFT's listing, the other events change nothing) yields exactly the
    table held by the registry. *)
Theorem listings_are_replay_of_log (market : address)
    (admits : address -> address -> bool) (w : World) :
  reachable market admits w ->
  listings (w_registry w) = replay_listings (event_log w).
Proof.
  apply (reachable_invariant market admits
           (fun w => listings (w_registry w) = replay_listings (event_log w))).
  - reflexivity.
  - intros w0 t w' Hreach Hinv Hrun.
    pose proof (committed_world _ _ _ _ _ (reachable_store_ok _ _ _ Hreach) Hrun) as Hw.
    destruct (call t) as [n d u | id p | id | id pay | id a | id a].
    + destruct Hw as (_ & _ & _ & _ & ->). cbn.
      rewrite replay_listings_app. cbn. exact Hinv.
    + destruct Hw as (n & h & _ & ->). cbn.
      rewrite replay_listings_app. cbn. rewrite Hinv. reflexivity.
    + destruct Hw as (n & h & _ & ->). cbn.
      rewrite replay_listings_app. cbn. rewrite Hinv. reflexivity.
    + destruct Hw as (n & h & l & _ & _ & _ & ->). cbn.
      rewrite replay_listings_app. cbn. rewrite Hinv. reflexivity.
    + destruct Hw as (n & h & _ & ->). cbn.
      rewrite replay_listings_app. cbn. exact Hinv.
    + destruct Hw as (n & h & _ & ->). cbn. exact Hinv.
Qed.

(** The two-sellers run: one listing sold, one still open. *)
Lemma listings_are_replay_of_log_witness :
  let w := Scenario.run Scenario.two_sellers in
  replay_listings (event_log w)
    = {[ 1%N := {| nft_id := 1%N; seller := Scenario.bob;
                   price := Scenario.half_range; listed := true |} ]} /\
  listings (w_registry w) = replay_listings (event_log w).
Proof.
  intros w. split; [vm_compute; reflexivity |].
  apply (listings_are_replay_of_log Scenario.market sui_owned w).
  exists Scenario.two_sellers. reflexivity.
Defined.

(** The owner fields and the owners the log names agree. *)
Lemma reachable_owners (market : address)
    (admits : address -> address -> bool) (w : World) :
  reachable market admits w ->
  forall id,
    replay_owners (event_log w) !! id = (fun x => owner x.1) <$> (nfts w !! id).
Proof.
  intros Hreach id. revert w Hreach.
  apply (reachable_invariant market admits
           (fun w => replay_owners (event_log w) !! id
                     = (fun x => owner x.1) <$> (nfts w !! id))).
  - reflexivity.
  - intros w0 t w' Hreach Hinv Hrun.
    pose proof (committed_world _ _ _ _ _ (reachable_store_ok _ _ _ Hreach) Hrun) as Hw.
    destruct (call t) as [n d u | id' p | id' | id' pay | id' a | id' a].
    + destruct Hw as (_ & _ & _ & _ & ->). cbn.
      rewrite replay_owners_app. cbn. rewrite !lookup_insert.
      case_decide; [reflexivity | exact Hinv].
    + destruct Hw as (n & h & Hn & ->). cbn.
      rewrite replay_owners_app. cbn. rewrite lookup_insert.
      case_decide; [subst id'; rewrite Hinv, Hn; reflexivity | exact Hinv].
    + destruct Hw as (n & h & Hn & ->). cbn.
      rewrite replay_owners_app. cbn. rewrite lookup_insert.
      case_decide; [subst id'; rewrite Hinv, Hn; reflexivity | exact Hinv].
    + destruct Hw as (n & h & l & Hn & _ & _ & ->). cbn.
      rewrite replay_owners_app. cbn. rewrite !lookup_insert.
      case_decide; [reflexivity | exact Hinv].
    + destruct Hw as (n & h & Hn & ->). cbn.
      rewrite replay_owners_app. cbn. rewrite !lookup_insert.
      case_decide; [reflexivity | exact Hinv].
    + destruct Hw as (n & h & Hn & ->). cbn. rewrite lookup_insert.
      case_decide; [subst id'; rewrite Hinv, Hn; reflexivity | exact Hinv].
Qed.

(** X12: the event log determines every owner field. In every reachable
    world, the owner recorded inside each NFT is the one named by the
    last [NFTMinted] or [OwnerUpdated] event about that NFT, and the log
    names an owner for no other identifier. *)
Theorem owners_are_replay_of_log (market : address)
    (admits : address -> address -> bool) (w : World) :
  reachable market admits w ->
  forall id,
    replay_owners (event_log w) !! id = (fun x => owner x.1) <$> (nfts w !! id).
Proof. apply reachable_owners. Qed.

(** After the marketplace address listed NFT 0 and passed it on to bob,
    the log names bob. *)
Lemma owners_are_replay_of_log_witness :
  let w := Scenario.run (Scenario.market_lists ++
                         [Scenario.tx Scenario.market (CallUpdateOwner 0%N Scenario.bob)]) in
  replay_owners (event_log w) !! 0%N = Some Scenario.bob /\
  (fun x => owner x.1) <$> (nfts w !! 0%N) = Some Scenario.bob.
Proof.
  intros w.
  assert (Hlog : replay_owners (event_log w) !! 0%N = Some Scenario.bob)
    by (vm_compute; reflexivity).
  split; [exact Hlog |]. rewrite <- Hlog. symmetry.
  apply (owners_are_replay_of_log Scenario.market sui_owned w).
  exists (Scenario.market_lists ++
          [Scenario.tx Scenario.market (CallUpdateOwner 0%N Scenario.bob)]).
  reflexivity.
Defined.

Lemma history_grows_execute (market : address) (admits : address -> address -> bool)
    (w : World) (t : Transaction) :
  reachable market admits w ->
  let w' := execute market admits w t in
  event_log w `prefix_of` event_log w' /\
  payments w `prefix_of` payments w' /\
  total_nfts_minted (w_registry w) <= total_nfts_minted (w_registry w') /\
  total_sales (w_registry w) <= total_sales (w_registry w') /\
  total_volume (w_registry w) <= total_volume (w_registry w').
Proof.
  intros Hreach. cbn. unfold execute.
  destruct (run_tx market admits w t) as [w' | e |] eqn:Hrun;
    try (split_and!; [reflexivity | reflexivity | lia | lia | lia]).
  pose proof (committed_world _ _ _ _ _ (reachable_store_ok _ _ _ Hreach) Hrun) as Hw.
  destruct (call t) as [n d u | id p | id | id pay | id a | id a].
  - destruct Hw as (_ & _ & _ & _ & ->). cbn.
    split_and!; [apply prefix_app_r; reflexivity | reflexivity | lia | lia | lia].
  - destruct Hw as (n & h & _ & ->). cbn.
    split_and!; [apply prefix_app_r; reflexivity | reflexivity | lia | lia | lia].
  - destruct Hw as (n & h & _ & ->). cbn.
    split_and!; [apply prefix_app_r; reflexivity | reflexivity | lia | lia | lia].
  - destruct Hw as (n & h & l & _ & Hl & _ & ->). cbn.
    destruct (reachable_registry_wf market _ (reachable_world_registry _ _ _ Hreach))
      as (_ & Hok & _).
    destruct (Hok _ _ Hl) as (_ & _ & Hpos).
    split_and!; [apply prefix_app_r; reflexivity | apply prefix_app_r; reflexivity
                | lia | lia | lia].
  - destruct Hw as (n & h & _ & ->). cbn.
    split_and!; [apply prefix_app_r; reflexivity | reflexivity | lia | lia | lia].
  - destruct Hw as (n & h & _ & ->). cbn.
    split_and!; [reflexivity | reflexivity | lia | lia | lia].
Qed.

(** X13: history only grows. From a reachable world on, whatever
    transactions follow, the event log and the list of payments are
    extended at the end and never rewritten, and the minted counter, the
    sales counter and the cumulative volume never decrease. *)
Theorem history_only_grows (market : address) (admits : address -> address -> bool)
    (w : World) (ts : list Transaction) :
  reachable market admits w ->
  let w' := run_trace market admits w ts in
  event_log w `prefix_of` event_log w' /\
  payments w `prefix_of` payments w' /\
  total_nfts_minted (w_registry w) <= total_nfts_minted (w_registry w') /\
  total_sales (w_registry w) <= total_sales (w_registry w') /\
  total_volume (w_registry w) <= total_volume (w_registry w').
Proof.
  intros Hreach w'. subst w'. revert w Hreach.
  induction ts as [| t ts IH]; intros w Hreach.
  - cbn. split_and!; [reflexivity | reflexivity | lia | lia | lia].
  - change (run_trace market admits w (t :: ts))
      with (run_trace market admits (execute market admits w t) ts).
    pose proof (history_grows_execute market admits w t Hreach) as H1.
    pose proof (IH _ (reachable_execute _ _ _ t Hreach)) as H2.
    cbv zeta in H1. destruct H1 as (He & Hp & Hm & Hs & Hv).
    destruct H2 as (He' & Hp' & Hm' & Hs' & Hv').
    split_and!; [etrans; eassumption | etrans; eassumption | lia | lia | lia].
Qed.

(** From alice's listing onward through a sale. *)
Lemma history_only_grows_witness :
  let w := Scenario.run Scenario.alice_lists in
  let w' := run_trace Scenario.market sui_owned w
              [Scenario.tx Scenario.market (CallBuy 0%N (Scenario.coin 150))] in
  event_log w `prefix_of` event_log w' /\
  total_volume (w_registry w) <= total_volume (w_registry w') /\
  total_volume (w_registry w') = 100.
Proof.
  intros w w'.
  destruct (history_only_grows Scenario.market sui_owned w
              [Scenario.tx Scenario.market (CallBuy 0%N (Scenario.coin 150))])
    as (He & _ & _ & _ & Hv).
  - exists Scenario.alice_lists. reflexivity.
  - split_and!; [exact He | exact Hv | vm_compute; reflexivity].
Defined.

Lemma owner_chain_app (o : gmap ID address) (l k : list Event) :
  owner_chain o (l ++ k) <-> owner_chain o l /\ owner_chain (foldl replay_owner o l) k.
Proof.
  revert o. induction l as [| e l IH]; intros o; cbn.
  - tauto.
  - rewrite IH. tauto.
Qed.

(** X14: the owner events chain up. In the log of every reachable world,
    each [NFTMinted] event is the first event to name an owner for its
    NFT, and each [OwnerUpdated] event gives as [old_owner] exactly the
    owner that the preceding events name for that NFT: the changes of
    owner recorded for an NFT form one unbroken chain from its mint. *)
Theorem owner_events_chain_up (market : address)
    (admits : address -> address -> bool) (w : World) :
  reachable market admits w ->
  owner_chain ∅ (event_log w).
Proof.
  revert w.
  apply (reachable_invariant market admits (fun w => owner_chain ∅ (event_log w))).
  - exact I.
  - intros w0 t w' Hreach Hinv Hrun.
    pose proof (reachable_store_ok _ _ _ Hreach) as Hok.
    pose proof (committed_world _ _ _ _ _ Hok Hrun) as Hw.
    pose proof (reachable_owners market admits w0 Hreach) as Hown.
    fold (replay_owners (event_log w0)) in *.
    destruct (call t) as [n d u | id p | id | id pay | id a | id a].
    + destruct Hw as (_ & _ & _ & Hfresh & ->). cbn.
      apply owner_chain_app. split; [exact Hinv |]. cbn.
      split; [| exact I].
      change (replay_owners (event_log w0) !! next_id w0 = None).
      rewrite Hown, Hfresh. reflexivity.
    + destruct Hw as (n & h & _ & ->). cbn.
      apply owner_chain_app. split; [exact Hinv |]. cbn. tauto.
    + destruct Hw as (n & h & _ & ->). cbn.
      apply owner_chain_app. split; [exact Hinv |]. cbn. tauto.
    + destruct Hw as (n & h & l & Hn & _ & _ & ->). cbn.
      apply owner_chain_app. split; [exact Hinv |]. cbn.
      split_and!; try exact I.
      change (replay_owners (event_log w0) !! id = Some (owner n)).
      rewrite Hown, Hn. reflexivity.
    + destruct Hw as (n & h & Hn & ->). cbn.
      apply owner_chain_app. split; [exact Hinv |]. cbn.
      split_and!; try exact I.
      change (replay_owners (event_log w0) !! id = Some (owner n)).
      rewrite Hown, Hn. reflexivity.
    + destruct Hw as (n & h & _ & ->). cbn. exact Hinv.
Qed.

(** The log of the run in which the marketplace address lists NFT 0,
    passes it on to bob, and bob buys it. *)
Lemma owner_events_chain_up_witness :
  let w := Scenario.run (Scenario.market_lists ++
                         [Scenario.tx Scenario.market (CallUpdateOwner 0%N Scenario.bob);
                          Scenario.tx Scenario.bob (CallBuy 0%N (Scenario.coin 5))]) in
  event_log w =
    [NFTMinted 0%N Scenario.market Scenario.market {| bytes := [] |} {| bytes := [] |};
     NFTListed 0%N Scenario.market 5;
     OwnerUpdated 0%N Scenario.market Scenario.bob;
     NFTSold 0%N Scenario.market Scenario.bob 5;
     OwnerUpdated 0%N Scenario.bob Scenario.bob] /\
  owner_chain ∅ (event_log w).
Proof.
  intros w. split; [vm_compute; reflexivity |].
  apply (owner_events_chain_up Scenario.market sui_owned w).
  eexists. reflexivity.
Defined.

(** X15: a listing is never changed in place. Whatever call runs, a
    listing that is in the table is afterwards either still there with
    the same seller, price and flag, or gone: [list_nft] cannot overwrite
    it, and no entry function edits a price. *)
Theorem listing_is_kept_or_removed (market : address) (c : TxContext) (o : Op)
    (r : NftMarketplaceRegistry) (id : ID) (l : Listing) :
  listings r !! id = Some l ->
  listings (registry_after market c o r) !! id = Some l \/
  listings (registry_after market c o r) !! id = None.
Proof.
  unfold registry_after. intros Hl.
  destruct o as [n d u | nft p | nft | nft pay | nft a | nft a]; cbn [run_op].
  - rewrite mint_nft_eq. cbn. tx_branch; cbn; left; exact Hl.
  - rewrite list_nft_eq. cbn. tx_branch; cbn; try (left; exact Hl).
    left. rewrite lookup_insert_ne; [exact Hl | congruence].
  - rewrite delist_nft_eq. cbn. tx_branch; cbn; try (left; exact Hl).
    rewrite lookup_delete. case_decide; [right; reflexivity | left; exact Hl].
  - rewrite buy_nft_eq. cbn. tx_branch; cbn; try (left; exact Hl).
    rewrite lookup_delete. case_decide; [right; reflexivity | left; exact Hl].
  - rewrite update_owner_eq. cbn. tx_branch; cbn; left; exact Hl.
  - cbn. left. exact Hl.
Qed.

(** alice tries to list her NFT again at 1 while it is listed at 100. *)
Lemma listing_is_kept_or_removed_witness :
  let r' := registry_after Scenario.market (Scenario.as_signer Scenario.alice)
              (OpList (Scenario.plain_nft 0 Scenario.alice) 1) Scenario.listed_at_100 in
  listings r' !! 0%N
    = Some {| nft_id := 0%N; seller := Scenario.alice; price := 100; listed := true |}.
Proof.
  intros r'.
  destruct (listing_is_kept_or_removed Scenario.market (Scenario.as_signer Scenario.alice)
              (OpList (Scenario.plain_nft 0 Scenario.alice) 1) Scenario.listed_at_100 0%N
              {| nft_id := 0%N; seller := Scenario.alice; price := 100; listed := true |})
    as [Hkept | Hgone].
  - reflexivity.
  - exact Hkept.
  - vm_compute in Hgone. discriminate.
Defined.

(** ** The backend's configuration test *)

(** X16: [isConfigured] of a freshly constructed [SuiConfig] is true
    exactly when NFT_PACKAGE_ID is set to a non-empty string. The module
    name never decides: unset or empty, it is replaced by
    "nft_marketplace", so it is never empty. *)
Theorem isConfigured_iff_package_id (env : SuiConfig.Env) :
  SuiConfig.truthy (SuiConfig.moduleName (SuiConfig.constructor env)) = true /\
  (SuiConfig.isConfigured (SuiConfig.constructor env) = true <->
   exists s, SuiConfig.NFT_PACKAGE_ID env = Some s /\ s <> String.EmptyString).
Proof.
  destruct env as [pkg mdl]. unfold SuiConfig.isConfigured, SuiConfig.truthy. cbn.
  match goal with
  | |- negb (String.eqb ?m _) = true /\ _ =>
      assert (Hm : negb (String.eqb m String.EmptyString) = true)
  end.
  { destruct mdl as [s |]; cbn; [| reflexivity].
    destruct (String.eqb_spec s String.EmptyString); cbn; [reflexivity |].
    apply negb_true_iff. apply String.eqb_neq. assumption. }
  split; [exact Hm |]. rewrite Hm, andb_true_r.
  destruct pkg as [s |]; cbn.
  - destruct (String.eqb_spec s String.EmptyString) as [-> | Hne]; cbn.
    + split; [discriminate |]. intros (s' & Hs & Hne). congruence.
    + split.
      * intros _. exists s. split; [reflexivity | exact Hne].
      * intros _. apply negb_true_iff. apply String.eqb_neq. exact Hne.
  - split; [discriminate |]. intros (s' & Hs & _). discriminate.
Qed.
